(** * Smart Library: the retrieval-augmented response pipeline

    A shallow embedding of [backend/app/moderation.py], [backend/app/tools.py],
    [backend/app/rag.py] and [backend/app/main.py], and the properties of the
    pipeline proved over it.

    Python [str] values are lists of Unicode code points.  The Unicode tables
    and the standard-library functions the code calls ([str.isspace],
    [str.lower], [json.loads], [difflib.get_close_matches], ...) are the fields
    of the class [PyRuntime]; the remote capabilities (OpenAI, the Chroma
    nearest-neighbour search) are the fields of the class [Services].  Every
    theorem of the development holds for all instances of both; the instances
    [Latin] and [Scripted] at the end of the definitions serve the concrete
    examples. *)

From Stdlib Require Import List NArith ZArith QArith Bool Lia.
From Stdlib Require Import Strings.Ascii Strings.Byte.
From Stdlib Require Strings.String.
Import Strings.String.StringSyntax.
Import ListNotations.

Set Implicit Arguments.
Set Warnings "-register-all".
Open Scope N_scope.
Open Scope list_scope.

(* ================================================================== *)
(** * Python strings *)
(* ================================================================== *)

Module PyStr.

(** A code point, and a Python [str]. *)
Definition char := N.
Definition str := list char.

Definition char_eqb (a b : char) : bool := N.eqb a b.

Fixpoint str_eqb (a b : str) : bool :=
  match a, b with
  | [], [] => true
  | x :: a', y :: b' => char_eqb x y && str_eqb a' b'
  | _, _ => false
  end.

(** Source literals are UTF-8 text; [lit] decodes one to its code points. *)
Fixpoint utf8_go (need : nat) (acc : N) (bs : list N) : str :=
  match bs with
  | [] => []
  | b :: r =>
      match need with
      | S k =>
          let acc' := acc * 64 + b mod 64 in
          match k with
          | O => acc' :: utf8_go 0 0 r
          | S _ => utf8_go k acc' r
          end
      | O =>
          if b <? 128 then b :: utf8_go 0 0 r
          else if b <? 224 then utf8_go 1 (b mod 32) r
          else if b <? 240 then utf8_go 2 (b mod 16) r
          else utf8_go 3 (b mod 8) r
      end
  end.

Definition lit (s : String.string) : str :=
  utf8_go 0 0 (map Byte.to_N (String.list_byte_of_string s)).
Arguments lit s%_string_scope.

(** The characters written with an escape in the source. *)
Definition NL : char := 10.
Definition DQUOTE : char := 34.
Definition DASH : char := 45.
Definition UNDERSCORE : char := 95.

(** Truthiness of a [str]: non-empty. *)
Definition truthy (s : str) : bool :=
  match s with [] => false | _ :: _ => true end.

(** [s.lstrip] / [s.strip] over a class of characters. *)
Fixpoint lstrip_with (p : char -> bool) (s : str) : str :=
  match s with
  | [] => []
  | c :: t => if p c then lstrip_with p t else s
  end.

Definition strip_with (p : char -> bool) (s : str) : str :=
  rev (lstrip_with p (rev (lstrip_with p s))).

(** [s.strip(chars)] *)
Definition strip_chars (chars : str) (s : str) : str :=
  strip_with (fun c => existsb (char_eqb c) chars) s.

(** [s.startswith(p)] *)
Fixpoint startswith (p s : str) : bool :=
  match p, s with
  | [], _ => true
  | _ :: _, [] => false
  | x :: p', y :: s' => char_eqb x y && startswith p' s'
  end.

(** [needle in hay] *)
Fixpoint contains (needle hay : str) : bool :=
  startswith needle hay ||
  match hay with
  | [] => false
  | _ :: t => contains needle t
  end.

(** [s.replace(old, new)] for a non-empty [old]: occurrences are replaced
    left to right and do not overlap; [skip] counts the characters of an
    occurrence still to be passed over. *)
Fixpoint replace_go (old new : str) (skip : nat) (s : str) : str :=
  match s with
  | [] => []
  | c :: t =>
      match skip with
      | S k => replace_go old new k t
      | O =>
          if startswith old s
          then new ++ replace_go old new (length old - 1) t
          else c :: replace_go old new 0 t
      end
  end.

Definition replace (old new s : str) : str := replace_go old new 0 s.

(** [sep.join(parts)] *)
Fixpoint join (sep : str) (parts : list str) : str :=
  match parts with
  | [] => []
  | [p] => p
  | p :: rest => p ++ sep ++ join sep rest
  end.

(** Iterating a [str] yields its one-character strings. *)
Definition chars_of (s : str) : list str := map (fun c => [c]) s.

(** [s or ""] for an optional string. *)
Definition or_empty (s : option str) : str :=
  match s with Some s => s | None => [] end.

(** [x in xs] for a list of strings. *)
Definition mem (x : str) (xs : list str) : bool := existsb (str_eqb x) xs.

End PyStr.
Export PyStr.

(* ================================================================== *)
(** * JSON values, exceptions *)
(* ================================================================== *)

(** What [json.loads] produces and [json.dumps] consumes.  A number keeps
    its literal. *)
Inductive json : Type :=
| JNull
| JBool (b : bool)
| JNum (literal : str)
| JStr (s : str)
| JArr (items : list json)
| JObj (fields : list (str * json)).

(** [d.get(key)] on a decoded object. *)
Fixpoint obj_get (key : str) (fields : list (str * json)) : option json :=
  match fields with
  | [] => None
  | (k, v) :: rest =>
      (* a later duplicate key of a JSON object wins *)
      match obj_get key rest with
      | Some v' => Some v'
      | None => if str_eqb k key then Some v else None
      end
  end.

(** The exceptions the pipeline can meet. *)
Inductive exn : Type :=
| FileNotFoundError (msg : str)
| ValueError (msg : str)
| KeyError (key : str)
| IndexError (msg : str)
| DuplicateIDError (msg : str)
| InvalidArgumentError (msg : str)
| AttributeError (msg : str)
| TypeError (msg : str)
| RemoteError (msg : str)            (* a failure of a remote capability *)
| HTTPException (status : N) (detail : str).

(** The result of a call: a value, or a raised exception. *)
Inductive outcome (A : Type) : Type :=
| Ok (a : A)
| Raise (e : exn).
Arguments Ok {A} a.
Arguments Raise {A} e.

(* ================================================================== *)
(** * The Python runtime *)
(* ================================================================== *)

(** The Unicode tables and library functions the code relies on. *)
Class PyRuntime : Type := {
  (** [ch.isspace()] *)
  isspace : char -> bool;
  (** [ch.isalnum()] *)
  isalnum : char -> bool;
  (** [s.lower()] *)
  lower : str -> str;
  (** [s.casefold()] *)
  casefold : str -> str;
  (** [re.IGNORECASE]: does the text character match the pattern literal? *)
  sre_ignorecase : char -> char -> bool;
  (** [json.loads(text)]; [None] when it raises [JSONDecodeError] *)
  json_loads : str -> option json;
  (** [json.dumps(value)] *)
  json_dumps : json -> str;
  (** [str(value)] of a decoded value that is not a string *)
  py_str : json -> str;
  (** [str(e)] of an exception *)
  exn_str : exn -> str;
  (** [difflib.get_close_matches(word, possibilities, n, cutoff)] *)
  get_close_matches : str -> list str -> nat -> Q -> list str
}.

Section StrRuntime.
Context {rt : PyRuntime}.

(** [s.strip()] *)
Definition strip (s : str) : str := strip_with isspace s.

(** [str(v)] *)
Definition str_of (v : json) : str :=
  match v with
  | JStr s => s
  | _ => py_str v
  end.

End StrRuntime.

(* ================================================================== *)
(** * moderation.py *)
(* ================================================================== *)

Module Moderation.
Section Moderation.
Context {rt : PyRuntime}.

(** [OFFENSIVE_PATTERNS]: every entry has the shape [\bSTEM\w*\b]; the
    list holds the stems, in the order of the source (the order of the
    alternation). *)
Definition OFFENSIVE_PATTERNS : list str :=
  [ lit "idiot"; lit "prost"; lit "nesimțit"; lit "jeg"; lit "jigod";
    lit "jigăod"; lit "bozgor"; lit "doamne-fer"; lit "dracu"; lit "naib";
    lit "pul"; lit "cur"; lit "muist"; lit "țigan"; lit "handicapat";
    lit "bou"; lit "boulean"; lit "porc"; lit "vacă"; lit "gunoa";
    lit "măgar"; lit "zdrențăros"; lit "javr"; lit "moron"; lit "jerk";
    lit "jackass"; lit "asshole"; lit "shit"; lit "fuck"; lit "cunt";
    lit "retard"; lit "bitch"; lit "whore"; lit "slut"; lit "bastard" ].

(** [\w] under [re.UNICODE]: alphanumeric or underscore. *)
Definition is_word (c : char) : bool := isalnum c || char_eqb c UNDERSCORE.

Definition is_word_at (c : option char) : bool :=
  match c with
  | Some c => is_word c
  | None => false
  end.

(** [\b] between the character before and the character after. *)
Definition at_boundary (prev next : option char) : bool :=
  xorb (is_word_at prev) (is_word_at next).

(** The literal part of a pattern under [re.IGNORECASE]: the consumed text
    (in reverse) and the rest. *)
Fixpoint match_literal (stem : str) (consumed : str) (text : str)
  : option (str * str) :=
  match stem with
  | [] => Some (consumed, text)
  | p :: stem' =>
      match text with
      | [] => None
      | c :: text' =>
          if sre_ignorecase p c
          then match_literal stem' (c :: consumed) text'
          else None
      end
  end.

(** [\w*\b]: the star is greedy and gives characters back until the
    boundary holds. *)
Fixpoint word_star_b (prev : option char) (text : str) : option str :=
  match text with
  | [] => if at_boundary prev None then Some [] else None
  | c :: text' =>
      let stop := if at_boundary prev (Some c) then Some [] else None in
      if is_word c
      then match word_star_b (Some c) text' with
           | Some m => Some (c :: m)
           | None => stop
           end
      else stop
  end.

(** One alternative tried at one position. *)
Definition match_at (prev : option char) (text : str) (stem : str)
  : option str :=
  if at_boundary prev (hd_error text)
  then match match_literal stem [] text with
       | Some (consumed, rest) =>
           match word_star_b (hd_error consumed) rest with
           | Some tail => Some (rev consumed ++ tail)
           | None => None
           end
       | None => None
       end
  else None.

(** The alternation at one position: the first alternative that matches. *)
Fixpoint match_any (prev : option char) (text : str) (stems : list str)
  : option str :=
  match stems with
  | [] => None
  | stem :: rest =>
      match match_at prev text stem with
      | Some m => Some m
      | None => match_any prev text rest
      end
  end.

(** [_COMPILED.search]: the leftmost position with a match. *)
Fixpoint search (prev : option char) (text : str) : option str :=
  match match_any prev text OFFENSIVE_PATTERNS with
  | Some m => Some m
  | None =>
      match text with
      | [] => None
      | c :: text' => search (Some c) text'
      end
  end.

Definition is_offensive (text : str) : option str :=
  if negb (truthy text) then None
  else search None text.

End Moderation.
End Moderation.
Export Moderation.

(* ================================================================== *)
(** * Data model, the world and the effects *)
(* ================================================================== *)

(** An entry of [data/book_summaries.json], typed as the docstring of
    [_load_books] gives it.  A key that is absent reads as its default
    ([book.get("title", "")], [book.get("authors", [])], ...). *)
Record book : Type := {
  b_title : str;
  b_authors : list str;
  b_tags : list str;
  b_summary : str
}.

(** What is at [BOOKS_JSON]. *)
Inductive books_file : Type :=
| Missing                       (* no such file *)
| Undecodable (msg : str)       (* [json.load] raises: not JSON *)
| NotAList                      (* decodes, but not to a list *)
| Books (entries : list book).

(** An embedding vector and a cosine distance: floats the code passes
    through and never inspects. *)
Definition vector := list Q.
Definition distance := Q.

(** The metadata [index_books] stores with a document.  Authors and tags
    are stored joined into one string. *)
Record meta : Type := {
  m_title : option str;
  m_authors : option str;
  m_tags : option str;
  m_summary : option str
}.

Definition empty_meta : meta :=
  {| m_title := None; m_authors := None; m_tags := None; m_summary := None |}.

(** A document of the Chroma collection ["books"]. *)
Record idoc : Type := {
  d_id : str;
  d_document : str;
  d_embedding : vector;
  d_meta : meta
}.

(** What [col.query] answers for one query embedding: four parallel lists.
    An entry of [q_metas] that is not a dict is [None]. *)
Record query_result : Type := {
  q_ids : list str;
  q_distances : list distance;
  q_documents : list str;
  q_metas : list (option meta)
}.

(** What [meta.get(key, [])] reads: the string stored under the key, or
    the empty list of the default. *)
Inductive stored_or_list : Type :=
| Stored (s : str)
| EmptyList.

(** An element of the list [retrieve] returns.  The title and the summary
    are read with [meta.get(key)] ([None] when absent), the authors and the
    tags with [meta.get(key, [])]. *)
Record match_item : Type := {
  i_title : option str;
  i_summary : option str;
  i_authors : stored_or_list;
  i_tags : stored_or_list;
  i_distance : option distance;
  i_document : option str;
  i_id : str
}.

(** An event of the provider's stream. *)
Inductive stream_event : Type :=
| OutputTextDelta (delta : str)       (* type "response.output_text.delta" *)
| OtherEvent (type : str).

(** What [_sse] frames: the event name and the data line. *)
Record frame : Type := {
  f_event : option str;
  f_data : str
}.

(** The component calls a request can make, recorded in order (a ghost
    log: the code keeps none). *)
Inductive call : Type :=
| CallRetrieve (query : str) (k : Z)
| CallSelectTitle (message : str)
| CallSummary (title : str)
| CallEmbed (texts : list str)
| CallComplete (system user : str)
| CallStream (system user : str)
| CallAdd (ids : list str)
| CallDelete (ids : list str)
| CallQuery (n_results : Z).

(** The mutable state around the pipeline. *)
Record world : Type := {
  w_books : books_file;                  (* the catalog source on disk *)
  w_collection : list idoc;              (* the Chroma collection *)
  w_cache : option (list book * list (str * book));
                                         (* _BOOKS_CACHE, _TITLE_INDEX *)
  w_log : list call                      (* most recent call first *)
}.

(** The remote capabilities. *)
Class Services : Type := {
  (** [get_openai().embeddings.create(model, input)], the vectors of
      [resp.data] in order *)
  embeddings_create : list str -> outcome (list vector);
  (** [OpenAI().responses.create(...)] on a system and a user prompt:
      [resp.output_text] *)
  responses_create : str -> str -> outcome (option str);
  (** [OpenAI().responses.stream(...)]: the events delivered, and the
      exception that ends the stream, if one does *)
  responses_stream : str -> str -> list stream_event * option exn;
  (** Chroma's nearest-neighbour search over the stored documents *)
  chroma_query : list idoc -> vector -> Z -> outcome query_result
}.

(** Computations: state and exceptions. *)
Definition M (A : Type) : Type := world -> outcome A * world.

Definition ret {A} (a : A) : M A := fun w => (Ok a, w).

Definition raise {A} (e : exn) : M A := fun w => (Raise e, w).

Definition bind {A B} (m : M A) (k : A -> M B) : M B :=
  fun w =>
    match m w with
    | (Ok a, w') => k a w'
    | (Raise e, w') => (Raise e, w')
    end.

Definition get_world : M world := fun w => (Ok w, w).

Definition trace (c : call) : M unit :=
  fun w =>
    (Ok tt, {| w_books := w_books w; w_collection := w_collection w;
               w_cache := w_cache w; w_log := c :: w_log w |}).

Definition set_collection (col : list idoc) : M unit :=
  fun w =>
    (Ok tt, {| w_books := w_books w; w_collection := col;
               w_cache := w_cache w; w_log := w_log w |}).

Definition set_cache (c : list book * list (str * book)) : M unit :=
  fun w =>
    (Ok tt, {| w_books := w_books w; w_collection := w_collection w;
               w_cache := Some c; w_log := w_log w |}).

Definition lift {A} (o : outcome A) : M A := fun w => (o, w).

Declare Scope py_scope.
Delimit Scope py_scope with py.
Notation "x <- m ;; k" := (bind m (fun x => k))
  (at level 100, m at next level, right associativity) : py_scope.
Notation "m ;; k" := (bind m (fun _ => k))
  (at level 100, right associativity) : py_scope.
Open Scope py_scope.

(** Generators: a computation that also yields frames.  What was yielded
    before an exception stays yielded. *)
Definition Gen (A : Type) : Type := world -> list frame * outcome A * world.

Definition gret {A} (a : A) : Gen A := fun w => ([], Ok a, w).

Definition gbind {A B} (g : Gen A) (k : A -> Gen B) : Gen B :=
  fun w =>
    match g w with
    | (fs, Ok a, w') =>
        match k a w' with
        | (fs', r, w'') => (fs ++ fs', r, w'')
        end
    | (fs, Raise e, w') => (fs, Raise e, w')
    end.

Definition yield (f : frame) : Gen unit := fun w => ([f], Ok tt, w).

Definition glift {A} (m : M A) : Gen A :=
  fun w => match m w with (r, w') => ([], r, w') end.

(** [try: <g> except Exception as e: <handler e>] around a generator body. *)
Definition gcatch (g : Gen unit) (handler : exn -> Gen unit) : Gen unit :=
  fun w =>
    match g w with
    | (fs, Ok tt, w') => (fs, Ok tt, w')
    | (fs, Raise e, w') =>
        match handler e w' with
        | (fs', r, w'') => (fs ++ fs', r, w'')
        end
    end.

(** [for x in xs: yield from body x] *)
Fixpoint gfor {A} (xs : list A) (body : A -> Gen unit) : Gen unit :=
  match xs with
  | [] => gret tt
  | x :: rest => gbind (body x) (fun _ => gfor rest body)
  end.

(* ================================================================== *)
(** * tools.py *)
(* ================================================================== *)

Module Tools.
Section Tools.
Context {rt : PyRuntime}.

(** Where the catalog lies, relative to the repository. *)
Definition BOOKS_JSON : str := lit "backend/app/data/book_summaries.json".

(** [_load_books] (the same function stands in [rag.py]). *)
Definition _load_books : M (list book) :=
  w <- get_world ;;
  match w_books w with
  | Missing =>
      raise (FileNotFoundError (lit "books file not found: " ++ BOOKS_JSON))
  | Undecodable msg => raise (ValueError msg)
  | NotAList =>
      raise (ValueError (lit "book_summaries.json must contain a list of books"))
  | Books data => ret data
  end.

(** [_norm]: [(s or "").strip().casefold()] *)
Definition _norm (s : str) : str := casefold (strip s).

(** A [dict] keeps its keys in insertion order; assigning to a key that is
    present replaces the value where the key stands. *)
Fixpoint dict_set {V} (k : str) (v : V) (d : list (str * V))
  : list (str * V) :=
  match d with
  | [] => [(k, v)]
  | (k', v') :: rest =>
      if str_eqb k' k then (k', v) :: rest
      else (k', v') :: dict_set k v rest
  end.

Fixpoint dict_get {V} (k : str) (d : list (str * V)) : option V :=
  match d with
  | [] => None
  | (k', v') :: rest => if str_eqb k' k then Some v' else dict_get k rest
  end.

(** The loop of [_ensure_cache] that fills [_TITLE_INDEX]. *)
Fixpoint build_index (books : list book) (index : list (str * book))
  : list (str * book) :=
  match books with
  | [] => index
  | b :: rest =>
      let title := strip (b_title b) in
      if truthy title
      then build_index rest (dict_set (_norm title) b index)
      else build_index rest index
  end.

Definition _ensure_cache : M (list book * list (str * book)) :=
  w <- get_world ;;
  match w_cache w with
  | Some c => ret c
  | None =>
      books <- _load_books ;;
      let c := (books, build_index books []) in
      set_cache c ;;
      ret c
  end.

(** The three places where a found book is rendered. *)
Definition render_exact (b : book) : str :=
  let summary := strip (b_summary b) in
  if truthy summary then summary
  else lit "Cartea „" ++ b_title b ++ lit "” nu are un rezumat disponibil.".

Definition render_close (close_title : str) (b : book) : str :=
  let summary := strip (b_summary b) in
  if truthy summary then summary
  else lit "Am găsit cartea cea mai apropiată „" ++ close_title
       ++ lit "”, dar nu are rezumat.".

Definition render_candidate (b : book) : str :=
  let summary := strip (b_summary b) in
  if truthy summary then summary
  else lit "Cartea „" ++ b_title b ++ lit "” nu are rezumat disponibil.".

Definition NO_TITLE : str :=
  lit "Nu am primit niciun titlu. Te rog trimite un titlu de carte valid.".

Definition not_found (title : str) : str :=
  lit "Nu am găsit nicio carte cu titlul „" ++ title ++ lit "”.".

(** The comprehension over [_TITLE_INDEX.items()]. *)
Definition candidates_of (key : str) (index : list (str * book))
  : list book :=
  map snd
    (filter (fun kb => contains key (fst kb) || startswith key (fst kb))
            index).

Definition get_summary_by_title (title : str) : M str :=
  trace (CallSummary title) ;;
  c <- _ensure_cache ;;
  let '(_BOOKS_CACHE, _TITLE_INDEX) := c in
  if negb (truthy title) || negb (truthy (strip title)) then ret NO_TITLE
  else
    let key := _norm title in
    match dict_get key _TITLE_INDEX with
    | Some b => ret (render_exact b)
    | None =>
        match candidates_of key _TITLE_INDEX with
        | [] =>
            let all_titles := map b_title _BOOKS_CACHE in
            match get_close_matches title all_titles 1 (6 # 10) with
            | close_title :: _ =>
                match dict_get (_norm close_title) _TITLE_INDEX with
                | Some b => ret (render_close close_title b)
                | None => raise (KeyError (_norm close_title))
                end
            | [] => ret (not_found title)
            end
        | best :: _ => ret (render_candidate best)
        end
    end.

(** The entries the index takes, and the key it files one under. *)
Definition has_title (b : book) : bool := truthy (strip (b_title b)).

Definition norm_title (b : book) : str := _norm (strip (b_title b)).

(** A book of the catalog the index knows under the key [k]. *)
Definition titled_as (k : str) (b : book) : bool :=
  has_title b && str_eqb (norm_title b) k.

(** The keys a [dict] ends up with when [keys] are assigned in turn to one
    that has the keys [seen]: every key once, where it first came. *)
Fixpoint first_seen (seen keys : list str) : list str :=
  match keys with
  | [] => []
  | k :: rest =>
      if mem k seen then first_seen seen rest
      else k :: first_seen (seen ++ [k]) rest
  end.

(** The catalog as [get_summary_by_title] will see it: the cache when it
    is filled, else what loading the source gives. *)
Definition catalog_view (w : world)
  : option (list book * list (str * book)) :=
  match w_cache w with
  | Some c => Some c
  | None =>
      match w_books w with
      | Books books => Some (books, build_index books [])
      | _ => None
      end
  end.

(** The outcome of the fuzzy stage. *)
Definition fuzzy_result (title : str) (books : list book)
  (index : list (str * book)) : outcome str :=
  match get_close_matches title (map b_title books) 1 (6 # 10) with
  | close_title :: _ =>
      match dict_get (_norm close_title) index with
      | Some b => Ok (render_close close_title b)
      | None => Raise (KeyError (_norm close_title))
      end
  | [] => Ok (not_found title)
  end.

End Tools.
End Tools.
Export Tools.

(* ================================================================== *)
(** * rag.py *)
(* ================================================================== *)

Module Rag.
Section Rag.
Context {rt : PyRuntime} {sv : Services}.

(** The collection, as the code uses it. *)

(** [col.count()] *)
Definition col_count : M nat :=
  w <- get_world ;; ret (length (w_collection w)).

(** [col.get()["ids"]] *)
Definition col_get_ids : M (list str) :=
  w <- get_world ;; ret (map d_id (w_collection w)).

(** [col.delete(ids=...)] *)
Definition col_delete (ids : list str) : M unit :=
  trace (CallDelete ids) ;;
  w <- get_world ;;
  set_collection (filter (fun d => negb (mem (d_id d) ids)) (w_collection w)).

Fixpoint has_duplicates (ids : list str) : bool :=
  match ids with
  | [] => false
  | i :: rest => mem i rest || has_duplicates rest
  end.

Fixpoint zip_docs (ids docs : list str) (embs : list vector)
  (metas : list meta) : list idoc :=
  match ids, docs, embs, metas with
  | i :: ids', d :: docs', e :: embs', m :: metas' =>
      {| d_id := i; d_document := d; d_embedding := e; d_meta := m |}
      :: zip_docs ids' docs' embs' metas'
  | _, _, _, _ => []
  end.

(** [col.add(ids, documents, embeddings, metadatas)]: Chroma refuses lists
    of unequal length, an empty id and an id repeated within the call, and
    leaves a document whose id is already stored as it is. *)
Definition col_add (ids docs : list str) (embs : list vector)
  (metas : list meta) : M unit :=
  trace (CallAdd ids) ;;
  w <- get_world ;;
  if negb (Nat.eqb (length docs) (length ids)
           && Nat.eqb (length embs) (length ids)
           && Nat.eqb (length metas) (length ids))
  then raise (ValueError (lit "Unequal lengths"))
  else if existsb (fun i => negb (truthy i)) ids
  then raise (InvalidArgumentError (lit "Expected ID to be a non-empty str"))
  else if has_duplicates ids
  then raise (DuplicateIDError (lit "Expected IDs to be unique"))
  else
    let stored := map d_id (w_collection w) in
    set_collection
      (w_collection w
       ++ filter (fun d => negb (mem (d_id d) stored))
                 (zip_docs ids docs embs metas)).

(** [_slugify] *)
Definition _slugify (title : str) : str :=
  replace [DASH; DASH] [DASH]
    (strip_chars [DASH]
       (map (fun ch => if isalnum ch then ch else DASH) (lower title))).

(** [_compose_document] *)
Definition _compose_document (b : book) : str :=
  let title := strip (b_title b) in
  let authors := join (lit ", ") (b_authors b) in
  let tags := join (lit ", ") (b_tags b) in
  let summary := strip (b_summary b) in
  let parts :=
    [ lit "Title: " ++ title;
      if truthy authors then lit "Authors: " ++ authors else [];
      if truthy tags then lit "Tags: " ++ tags else [];
      lit "Summary: " ++ summary ] in
  join [NL] (filter truthy parts).

(** [embed_texts] *)
Definition embed_texts (texts : list str) : M (list vector) :=
  match texts with
  | [] => ret []
  | _ :: _ =>
      trace (CallEmbed texts) ;;
      lift (embeddings_create texts)
  end.

(** The first loop of [index_books]: the parallel lists [ids], [docs] and
    [metas], here a list of triples. *)
Fixpoint prepare (books : list book) : list (str * str * meta) :=
  match books with
  | [] => []
  | b :: rest =>
      let title := strip (b_title b) in
      if negb (truthy title) then prepare rest
      else
        ( _slugify title,
          _compose_document b,
          {| m_title := Some title;
             m_authors := Some (join (lit ", ") (b_authors b));
             m_tags := Some (join (lit ", ") (b_tags b));
             m_summary := Some (b_summary b) |} )
        :: prepare rest
  end.

Definition BATCH : nat := 64.

(** [range(0, n, step)] *)
Fixpoint range_step (start : nat) (count : nat) (step : nat) : list nat :=
  match count with
  | O => []
  | S c => start :: range_step (start + step) c step
  end.

Definition range0 (n step : nat) : list nat :=
  range_step 0 ((n + step - 1) / step)%nat step.

(** [xs[i : j]] *)
Definition slice {A} (i j : nat) (xs : list A) : list A :=
  firstn (j - i) (skipn i xs).

(** The second loop of [index_books], over the batch starts. *)
Fixpoint add_batches (starts : list nat) (rows : list (str * str * meta))
  (added : nat) : M nat :=
  match starts with
  | [] => ret added
  | i :: rest =>
      let batch := slice i (i + BATCH) rows in
      let batch_ids := map (fun r => fst (fst r)) batch in
      let batch_docs := map (fun r => snd (fst r)) batch in
      let batch_meta := map snd batch in
      vectors <- embed_texts batch_docs ;;
      col_add batch_ids batch_docs vectors batch_meta ;;
      add_batches rest rows (added + length batch_ids)
  end.

Definition index_books (force : bool) : M (nat * nat) :=
  books <- Tools._load_books ;;
  existing_count <- col_count ;;
  if negb (Nat.eqb existing_count 0) && negb force
  then ret (0%nat, existing_count)
  else
    (if force && negb (Nat.eqb existing_count 0)
     then (ids <- col_get_ids ;; col_delete ids)
     else ret tt) ;;
    let rows := prepare books in
    added <- add_batches (range0 (length rows) BATCH) rows 0 ;;
    ret (added, (length rows - added)%nat).

(** A document of the index that [index_books] made from an entry of the
    catalog with a title: its id is the slug of the trimmed title, which
    its metadata keeps. *)
Definition indexed_from (entries : list book) (d : idoc) : Prop :=
  exists b,
    In b entries
    /\ truthy (strip (b_title b)) = true
    /\ d_id d = _slugify (strip (b_title b))
    /\ m_title (d_meta d) = Some (strip (b_title b)).

(** [init_store] *)
Definition init_store (force : bool) : M (nat * nat) := index_books force.

(** [xs[i] if i < len(xs) else None] *)
Definition nth_or_none {A} (xs : list A) (i : nat) : option A := nth_error xs i.

(** The result loop of [retrieve]. *)
Definition item_at (res : query_result) (i : nat) (id : str) : match_item :=
  let m :=
    match nth_error (q_metas res) i with
    | Some (Some m) => m
    | _ => empty_meta
    end in
  {| i_title := m_title m;
     i_summary := m_summary m;
     i_authors := match m_authors m with
                  | Some s => Stored s
                  | None => EmptyList
                  end;
     i_tags := match m_tags m with
               | Some s => Stored s
               | None => EmptyList
               end;
     i_distance := nth_or_none (q_distances res) i;
     i_document := nth_or_none (q_documents res) i;
     i_id := id |}.

Fixpoint items_from (res : query_result) (i : nat) (ids : list str)
  : list match_item :=
  match ids with
  | [] => []
  | id :: rest => item_at res i id :: items_from res (S i) rest
  end.

(** [retrieve].  The query is [None] or a string. *)
Definition retrieve (query : option str) (k : Z) : M (list match_item) :=
  trace (CallRetrieve (or_empty query) k) ;;
  let query := strip (or_empty query) in
  if negb (truthy query) then ret []
  else
    embs <- embed_texts [query] ;;
    match embs with
    | [] => raise (IndexError (lit "list index out of range"))
    | q_emb :: _ =>
        w <- get_world ;;
        trace (CallQuery (Z.max 1 k)) ;;
        res <- lift (chroma_query (w_collection w) q_emb (Z.max 1 k)) ;;
        ret (items_from res 0 (q_ids res))
    end.

End Rag.
End Rag.
Export Rag.

(* ================================================================== *)
(** * main.py *)
(* ================================================================== *)

Module Main.
Section Main.
Context {rt : PyRuntime} {sv : Services}.

(** [_sse]: the frame, and below the text that goes on the wire. *)
Definition _sse (data : str) (event : option str) : frame :=
  {| f_event := match event with
                | Some e => if truthy e then Some e else None
                | None => None
                end;
     f_data := data |}.

Definition wire (f : frame) : str :=
  (match f_event f with
   | Some e => lit "event: " ++ e ++ [NL]
   | None => []
   end)
  ++ lit "data: " ++ f_data f ++ [NL; NL].

(** The comprehensions that open [_select_title]. *)
Definition candidate_titles (context_items : list match_item) : list str :=
  let titles :=
    flat_map
      (fun x =>
         match i_title x with
         | Some t => if truthy t then [strip t] else []
         | None => []
         end)
      context_items in
  filter truthy titles.

Definition SELECT_SYSTEM : str :=
  lit "Alege EXACT UN titlu din lista dată. Răspunde STRICT ca JSON valid pe o singură linie: "
  ++ lit "{" ++ [DQUOTE] ++ lit "title" ++ [DQUOTE] ++ lit ":" ++ [DQUOTE]
  ++ lit "..." ++ [DQUOTE] ++ lit "} Fără backticks, fără explicații.".

(** [titles[0] if titles else ""] *)
Definition first_or_empty (titles : list str) : str :=
  match titles with
  | t :: _ => t
  | [] => []
  end.

(** The [try] block of [_select_title]: [Some chosen] when it runs to its
    [return], [None] when it raises ([json.loads] fails, or the decoded
    value has no [get]). *)
Definition decode_choice (text : str) : option str :=
  match json_loads text with
  | Some (JObj fields) =>
      Some (strip (match obj_get (lit "title") fields with
                   | Some v => str_of v
                   | None => []
                   end))
  | Some _ => None
  | None => None
  end.

Definition _select_title (message : str) (context_items : list match_item)
  : M str :=
  trace (CallSelectTitle message) ;;
  let titles := candidate_titles context_items in
  match titles with
  | [] => ret []
  | _ :: _ =>
      let system := SELECT_SYSTEM in
      let user :=
        lit "Cerere: " ++ message ++ [NL] ++ lit "Titluri candidate: "
        ++ join (lit "; ") titles in
      trace (CallComplete system user) ;;
      output_text <- lift (responses_create system user) ;;
      let text := strip (or_empty output_text) in
      match decode_choice text with
      | Some chosen =>
          ret (if mem chosen titles then chosen else first_or_empty titles)
      | None => ret (first_or_empty titles)
      end
  end.

Definition STREAM_SYSTEM : str :=
  lit "Ești „Bibliotecarul Asistent”. Recomandă concis O SINGURĂ carte și explică pe scurt „De ce”. "
  ++ lit "Apoi inserează rezumatul complet furnizat (nu inventa). Rămâi în română, prietenos și clar.".

(** [_fmt].  The authors of an item are the joined string the index
    stores, so [", ".join] runs over its characters. *)
Definition _fmt (item : match_item) : str :=
  let t := or_empty (i_title item) in
  let a :=
    join (lit ", ")
      (match i_authors item with
       | Stored s => chars_of s        (* [s or []], iterated *)
       | EmptyList => []
       end) in
  let s := or_empty (i_summary item) in
  lit "Titlu: " ++ t ++ [NL] ++ lit "Autori: " ++ a ++ [NL]
  ++ lit "Rezumat scurt: " ++ firstn 350 s ++ lit "...".

Definition stream_user (message : str) (context_items : list match_item)
  (title summary : str) : str :=
  let rag_block :=
    match context_items with
    | [] => lit "—"
    | _ :: _ => join [NL; NL] (map _fmt context_items)
    end in
  lit "Cerere utilizator: " ++ message ++ [NL; NL]
  ++ lit "Titlu ales: " ++ (if truthy title then title else lit "N/A")
  ++ [NL; NL]
  ++ lit "CONTEXT (din RAG, pentru orientare – nu inventa altele):" ++ [NL]
  ++ rag_block ++ [NL; NL]
  ++ lit "Rezumat complet pentru titlul ales (din sursă locală):" ++ [NL]
  ++ summary ++ [NL; NL]
  ++ lit "Structură răspuns:" ++ [NL]
  ++ lit "1) O propoziție cu recomandarea (doar un titlu)." ++ [NL]
  ++ lit "2) De ce se potrivește (2–3 fraze)." ++ [NL]
  ++ lit "3) Rezumatul complet (exact cum e furnizat mai sus).".

(** [FinalResponse(...).model_dump()] *)
Definition FinalResponse (recommendation : option json)
  (summary : option str) : json :=
  JObj [ (lit "final", JBool true);
         (lit "recommendation",
          match recommendation with Some r => r | None => JNull end);
         (lit "summary",
          match summary with Some s => JStr s | None => JNull end) ].

(** [x or None] *)
Definition or_none (s : str) : option str :=
  if truthy s then Some s else None.

Definition TOKEN : option str := Some (lit "token").
Definition FINAL : option str := Some (lit "final").
Definition ERROR : option str := Some (lit "error").

Definition _stream_final_with_summary (message : str)
  (context_items : list match_item) (title : str) : Gen unit :=
  gbind (glift (if truthy title then get_summary_by_title title else ret []))
    (fun summary =>
  let system := STREAM_SYSTEM in
  let user := stream_user message context_items title summary in
  gbind (glift (trace (CallStream system user))) (fun _ =>
  let '(events, failure) := responses_stream system user in
  gbind (gfor events
           (fun event =>
              match event with
              | OutputTextDelta delta => yield (_sse delta TOKEN)
              | OtherEvent _ => gret tt
              end)) (fun _ =>
  match failure with
  | Some e => glift (raise e)
  | None =>
      let final_payload :=
        FinalResponse (Some (JObj [(lit "title", JStr title)]))
                      (or_none summary) in
      yield (_sse (json_dumps final_payload) FINAL)
  end))).

Definition POLICY_MESSAGE : str :=
  lit "Aș vrea să păstrăm conversația politică și respectuoasă. "
  ++ lit "Poți reformula mesajul fără termeni ofensatori?".

Definition _stream_policy_reply : Gen unit :=
  gbind (yield (_sse POLICY_MESSAGE TOKEN)) (fun _ =>
  let final_payload := FinalResponse None None in
  yield (_sse (json_dumps final_payload) FINAL)).

(** The [except Exception as e] of both generators of [respond]. *)
Definition error_frame (e : exn) : frame :=
  _sse (json_dumps (JObj [(lit "error", JStr (exn_str e))])) ERROR.

Definition event_generator_policy : Gen unit :=
  gcatch _stream_policy_reply (fun e => yield (error_frame e)).

Definition event_generator (message : str) (context_items : list match_item)
  (title : str) : Gen unit :=
  gcatch (_stream_final_with_summary message context_items title)
         (fun e => yield (error_frame e)).

(** [if bad:] on an [Optional[str]] *)
Definition flagged (bad : option str) : bool :=
  match bad with
  | Some b => truthy b
  | None => false
  end.

(** [respond]: raises, or returns the [StreamingResponse] around a
    generator that has not run yet. *)
Definition respond (payload_message : str) : M (Gen unit) :=
  let message := strip payload_message in
  if negb (truthy message)
  then raise (HTTPException 400 (lit "Field 'message' is required"))
  else
    let bad := is_offensive message in
    if flagged bad then ret event_generator_policy
    else
      context_items <- retrieve (Some message) 3 ;;
      title <- _select_title message context_items ;;
      ret (event_generator message context_items title).

(** A request as the client sees it: [respond] raised and there is no
    stream, or the stream was sent, its body consumed to the end. *)
Inductive reply : Type :=
| NoStream (e : exn)
| Streamed (frames : list frame) (escaped : option exn).

Definition serve (payload_message : str) (w : world) : reply * world :=
  match respond payload_message w with
  | (Raise e, w1) => (NoStream e, w1)
  | (Ok body, w1) =>
      match body w1 with
      | (frames, Ok tt, w2) => (Streamed frames None, w2)
      | (frames, Raise e, w2) => (Streamed frames (Some e), w2)
      end
  end.

(** The frames the deltas of a provider stream are forwarded as. *)
Definition token_frames (events : list stream_event) : list frame :=
  flat_map
    (fun event =>
       match event with
       | OutputTextDelta delta => [_sse delta TOKEN]
       | OtherEvent _ => []
       end)
    events.

(** The world after one more noted call. *)
Definition noting (c : call) (w : world) : world :=
  {| w_books := w_books w; w_collection := w_collection w;
     w_cache := w_cache w; w_log := c :: w_log w |}.

(** The three kinds of frame. *)
Definition is_token (f : frame) : bool :=
  match f_event f with Some e => str_eqb e (lit "token") | None => false end.
Definition is_final (f : frame) : bool :=
  match f_event f with Some e => str_eqb e (lit "final") | None => false end.
Definition is_error (f : frame) : bool :=
  match f_event f with Some e => str_eqb e (lit "error") | None => false end.
Definition is_terminal (f : frame) : bool := is_final f || is_error f.

(** A stream of the protocol: Token frames, then one terminal frame, which
    is a Final or an Error frame and the only terminal frame there is. *)
Definition terminated_once (frames : list frame) : Prop :=
  exists tokens last,
    frames = tokens ++ [last]
    /\ Forall (fun f => is_token f = true) tokens
    /\ xorb (is_final last) (is_error last) = true
    /\ length (filter is_terminal frames) = 1%nat.

End Main.
End Main.
Export Main.

(* ================================================================== *)
(** * A runtime and services for the examples *)
(* ================================================================== *)

(** [Latin] answers as Python does on Basic Latin (U+0000 to U+007F) and
    on the Romanian letters; every example below stays inside that range.
    Its JSON reader and writer know [null], [true], [false], integers,
    arrays, objects, and the strings that need no escape sequence (Basic
    Latin without quote and backslash). *)
Module Latin.

Definition ROMANIAN_UPPER : str := lit "ĂÂÎȘȚ".
Definition ROMANIAN_LOWER : str := lit "ăâîșț".

Definition between (lo hi c : N) : bool := (lo <=? c) && (c <=? hi).

Definition isspace (c : char) : bool :=
  between 9 13 c || between 28 32 c.

Definition isupper (c : char) : bool :=
  between 65 90 c || existsb (char_eqb c) ROMANIAN_UPPER.

Definition isalnum (c : char) : bool :=
  between 48 57 c || between 65 90 c || between 97 122 c
  || existsb (char_eqb c) ROMANIAN_UPPER
  || existsb (char_eqb c) ROMANIAN_LOWER.

Definition lower1 (c : char) : char :=
  if between 65 90 c then c + 32
  else if char_eqb c 194 || char_eqb c 206 then c + 32     (* Â Î *)
  else if existsb (char_eqb c) ROMANIAN_UPPER then c + 1   (* Ă Ș Ț *)
  else c.

Definition lower (s : str) : str := map lower1 s.

Definition sre_ignorecase (p c : char) : bool :=
  char_eqb (lower1 p) (lower1 c).

Fixpoint skip_ws (s : str) : str :=
  match s with
  | c :: t =>
      if char_eqb c 32 || char_eqb c 9 || char_eqb c 10 || char_eqb c 13
      then skip_ws t else s
  | [] => []
  end.

(** After the opening quote: the characters up to the closing one. *)
Fixpoint read_string (s : str) : option (str * str) :=
  match s with
  | [] => None
  | c :: t =>
      if char_eqb c DQUOTE then Some ([], t)
      else if char_eqb c 92 || (c <? 32) then None
      else match read_string t with
           | Some (body, rest) => Some (c :: body, rest)
           | None => None
           end
  end.

Fixpoint read_digits (s : str) : str * str :=
  match s with
  | c :: t =>
      if between 48 57 c
      then let '(ds, rest) := read_digits t in (c :: ds, rest)
      else ([], s)
  | [] => ([], [])
  end.

(** [s] without the prefix [p], when it starts with it. *)
Fixpoint after (p s : str) : option str :=
  match p, s with
  | [], _ => Some s
  | x :: p', y :: s' => if char_eqb x y then after p' s' else None
  | _ :: _, [] => None
  end.

Fixpoint read_value (fuel : nat) (s : str) : option (json * str) :=
  match fuel with
  | O => None
  | S fuel' =>
      let s := skip_ws s in
      match after (lit "null") s, after (lit "true") s,
            after (lit "false") s with
      | Some r, _, _ => Some (JNull, r)
      | _, Some r, _ => Some (JBool true, r)
      | _, _, Some r => Some (JBool false, r)
      | None, None, None =>
          match s with
          | [] => None
          | c :: t =>
              if char_eqb c DQUOTE then
                match read_string t with
                | Some (body, r) => Some (JStr body, r)
                | None => None
                end
              else if char_eqb c 91 then                       (* [ *)
                match skip_ws t with
                | 93 :: r => Some (JArr [], r)
                | _ =>
                    match read_items fuel' t with
                    | Some (items, r) => Some (JArr items, r)
                    | None => None
                    end
                end
              else if char_eqb c 123 then                      (* { *)
                match skip_ws t with
                | 125 :: r => Some (JObj [], r)
                | _ =>
                    match read_fields fuel' t with
                    | Some (fields, r) => Some (JObj fields, r)
                    | None => None
                    end
                end
              else
                let '(sign, u) :=
                  if char_eqb c DASH then ([c], t) else ([], s) in
                match read_digits u with
                | ([], _) => None
                | (ds, r) => Some (JNum (sign ++ ds), r)
                end
          end
      end
  end

with read_items (fuel : nat) (s : str) : option (list json * str) :=
  match fuel with
  | O => None
  | S fuel' =>
      match read_value fuel' s with
      | Some (v, r) =>
          match skip_ws r with
          | 44 :: r' =>
              match read_items fuel' r' with
              | Some (vs, r'') => Some (v :: vs, r'')
              | None => None
              end
          | 93 :: r' => Some ([v], r')
          | _ => None
          end
      | None => None
      end
  end

with read_fields (fuel : nat) (s : str)
  : option (list (str * json) * str) :=
  match fuel with
  | O => None
  | S fuel' =>
      match skip_ws s with
      | 34 :: t =>
          match read_string t with
          | Some (k, r) =>
              match skip_ws r with
              | 58 :: r1 =>
                  match read_value fuel' r1 with
                  | Some (v, r2) =>
                      match skip_ws r2 with
                      | 44 :: r3 =>
                          match read_fields fuel' r3 with
                          | Some (kvs, r4) => Some ((k, v) :: kvs, r4)
                          | None => None
                          end
                      | 125 :: r3 => Some ([(k, v)], r3)
                      | _ => None
                      end
                  | None => None
                  end
              | _ => None
              end
          | None => None
          end
      | _ => None
      end
  end.

Definition json_loads (text : str) : option json :=
  match read_value (S (length text)) text with
  | Some (v, rest) =>
      match skip_ws rest with
      | [] => Some v
      | _ :: _ => None
      end
  | None => None
  end.

Definition quoted (s : str) : str := [DQUOTE] ++ s ++ [DQUOTE].

Fixpoint json_dumps (v : json) : str :=
  match v with
  | JNull => lit "null"
  | JBool true => lit "true"
  | JBool false => lit "false"
  | JNum l => l
  | JStr s => quoted s
  | JArr items => lit "[" ++ join (lit ", ") (map json_dumps items) ++ lit "]"
  | JObj fields =>
      lit "{"
      ++ join (lit ", ")
           (map (fun kv =>
                   match kv with
                   | (k, x) => quoted k ++ lit ": " ++ json_dumps x
                   end) fields)
      ++ lit "}"
  end.

Definition py_str (v : json) : str :=
  match v with
  | JNull => lit "None"
  | JBool true => lit "True"
  | JBool false => lit "False"
  | _ => json_dumps v
  end.

Definition exn_str (e : exn) : str :=
  match e with
  | FileNotFoundError m | ValueError m | IndexError m
  | DuplicateIDError m | RemoteError m => m
  | InvalidArgumentError m | AttributeError m | TypeError m => m
  | KeyError k => lit "'" ++ k ++ lit "'"
  | HTTPException _ d => d
  end.

(** [difflib] at cutoff 1.0: identical strings only. *)
Definition get_close_matches (word : str) (possibilities : list str)
  (n : nat) (cutoff : Q) : list str :=
  firstn n (filter (str_eqb word) possibilities).

End Latin.

Definition LatinRuntime : PyRuntime := {|
  isspace := Latin.isspace;
  isalnum := Latin.isalnum;
  lower := Latin.lower;
  casefold := Latin.lower;
  sre_ignorecase := Latin.sre_ignorecase;
  json_loads := Latin.json_loads;
  json_dumps := Latin.json_dumps;
  py_str := Latin.py_str;
  exn_str := Latin.exn_str;
  get_close_matches := Latin.get_close_matches
|}.

(** The remote capabilities of the examples: an embedding of one number
    per text, a completion that replies [reply], a stream that delivers
    [events] and then ends (or breaks with [failure]), and a search that
    answers with the first [n_results] stored documents. *)
Module Scripted.

Definition embed_lengths (texts : list str) : outcome (list vector) :=
  Ok (map (fun t => [inject_Z (Z.of_nat (length t))]) texts).

Definition first_hits (col : list idoc) (q : vector) (n_results : Z)
  : outcome query_result :=
  let hits := firstn (Z.to_nat n_results) col in
  Ok {| q_ids := map d_id hits;
        q_distances := map (fun _ => 0%Q) hits;
        q_documents := map d_document hits;
        q_metas := map (fun d => Some (d_meta d)) hits |}.

Definition services (reply : str) (events : list stream_event)
  (failure : option exn) : Services := {|
  embeddings_create := embed_lengths;
  responses_create := fun _ _ => Ok (Some reply);
  responses_stream := fun _ _ => (events, failure);
  chroma_query := first_hits
|}.

(** The embedding capability is down. *)
Definition EMBEDDING_DOWN : exn :=
  RemoteError (lit "Connection error.").

Definition embedding_down : Services := {|
  embeddings_create := fun _ => Raise EMBEDDING_DOWN;
  responses_create := fun _ _ => Ok (Some (lit "nope"));
  responses_stream := fun _ _ => ([], None);
  chroma_query := first_hits
|}.

End Scripted.

Module Sample.

Definition hobbit : book := {|
  b_title := lit "The Hobbit";
  b_authors := [lit "J.R.R. Tolkien"];
  b_tags := [lit "fantasy"; lit "adventure"];
  b_summary := lit "Bilbo Baggins leaves the Shire."
|}.

Definition dune : book := {|
  b_title := lit "Dune";
  b_authors := [lit "Frank Herbert"];
  b_tags := [lit "science fiction"];
  b_summary := lit "Paul Atreides on Arrakis."
|}.

Definition dune_messiah : book := {|
  b_title := lit "Dune Messiah";
  b_authors := [lit "Frank Herbert"];
  b_tags := [lit "science fiction"];
  b_summary := lit "Twelve years after the jihad."
|}.

Definition dune_capitals : book := {|
  b_title := lit "DUNE";
  b_authors := [lit "Frank Herbert"];
  b_tags := [lit "science fiction"];
  b_summary := lit "The spice must flow."
|}.

Definition untitled : book := {|
  b_title := lit "   ";
  b_authors := [];
  b_tags := [];
  b_summary := lit "No title."
|}.

(** A world with a catalog on disk and nothing indexed or cached. *)
Definition fresh (books : list book) : world := {|
  w_books := Books books;
  w_collection := [];
  w_cache := None;
  w_log := []
|}.

Definition hobbit_doc : idoc := {|
  d_id := lit "the-hobbit";
  d_document := lit "Title: The Hobbit";
  d_embedding := [1%Q];
  d_meta := {| m_title := Some (lit "The Hobbit");
               m_authors := Some (lit "J.R.R. Tolkien");
               m_tags := Some (lit "fantasy, adventure");
               m_summary := Some (lit "Bilbo Baggins leaves the Shire.") |}
|}.

(** An index that holds a document while the catalog source is gone. *)
Definition no_catalog : world := {|
  w_books := Missing;
  w_collection := [hobbit_doc];
  w_cache := None;
  w_log := []
|}.

(** A retrieved match with nothing but a title. *)
Definition titled (t : str) : match_item := {|
  i_title := Some t;
  i_summary := None;
  i_authors := EmptyList;
  i_tags := EmptyList;
  i_distance := None;
  i_document := None;
  i_id := t
|}.

End Sample.

(* ================================================================== *)
(** * The rest of tools.py, rag.py and main.py *)
(* ================================================================== *)

(** What [build_tool_outputs] relies on beyond the runtime above: the
    text of the errors that are not raised by the code of this repository,
    and the truth value of a number. *)
Class PyValues : Type := {
  (** [str(e)] of the [JSONDecodeError] that [json.loads(text)] raises *)
  json_error_str : str -> str;
  (** [str(e)] of the [AttributeError] of [value.get] on a value that is
      no dict *)
  attribute_error_str : json -> str;
  (** [str(e)] of the [TypeError] of a [for] over a value that cannot be
      iterated *)
  not_iterable_str : json -> str;
  (** [bool(x)] of the number a literal stands for *)
  num_truthy : str -> bool
}.

Module More.

(** [str(n)] of a non-negative [int]. *)
Fixpoint uint_str (d : Decimal.uint) : str :=
  match d with
  | Decimal.Nil => []
  | Decimal.D0 r => 48 :: uint_str r
  | Decimal.D1 r => 49 :: uint_str r
  | Decimal.D2 r => 50 :: uint_str r
  | Decimal.D3 r => 51 :: uint_str r
  | Decimal.D4 r => 52 :: uint_str r
  | Decimal.D5 r => 53 :: uint_str r
  | Decimal.D6 r => 54 :: uint_str r
  | Decimal.D7 r => 55 :: uint_str r
  | Decimal.D8 r => 56 :: uint_str r
  | Decimal.D9 r => 57 :: uint_str r
  end.

Definition str_of_nat (n : nat) : str := uint_str (Nat.to_uint n).

Definition COMMA : char := 44.

(** [s.split(sep)] for a one-character separator; [cur] holds the piece in
    progress, in reverse. *)
Fixpoint split_go (sep : char) (cur : str) (s : str) : list str :=
  match s with
  | [] => [rev cur]
  | c :: t =>
      if char_eqb c sep then rev cur :: split_go sep [] t
      else split_go sep (c :: cur) t
  end.

Definition split (sep : char) (s : str) : list str := split_go sep [] s.

(** The world with another catalog source on disk. *)
Definition with_books (file : books_file) (w : world) : world :=
  {| w_books := file; w_collection := w_collection w;
     w_cache := w_cache w; w_log := w_log w |}.


(** The calls of [CallEmbed] among noted calls. *)
Definition embed_calls (log : list call) : list (list str) :=
  flat_map
    (fun c => match c with CallEmbed texts => [texts] | _ => [] end) log.

Section More.
Context {rt : PyRuntime} {sv : Services} {er : PyValues}.

(** tools.py: [list_titles] *)
Definition list_titles : M (list str) :=
  c <- _ensure_cache ;;
  ret (map b_title (fst c)).

(** tools.py: [build_tool_outputs] takes whatever the caller hands it;
    the values are those of decoded JSON, [JNull] being [None]. *)

(** [bool(v)] *)
Definition json_truthy (v : json) : bool :=
  match v with
  | JNull => false
  | JBool b => b
  | JNum literal => num_truthy literal
  | JStr s => truthy s
  | JArr items => match items with [] => false | _ :: _ => true end
  | JObj fields => match fields with [] => false | _ :: _ => true end
  end.

(** [v.get(key)]; the result is [None] for a key that is absent, and a
    value that is no dict has no [get]. *)
Definition py_get (v : json) (key : str) : M (option json) :=
  match v with
  | JObj fields => ret (obj_get key fields)
  | _ => raise (AttributeError (attribute_error_str v))
  end.

(** The value [d.get(key)] gives: [None] when the key is absent. *)
Definition found_or_none (found : option json) : json :=
  match found with
  | Some v => v
  | None => JNull
  end.

(** [x or default] *)
Definition or_json (x default : json) : json :=
  if json_truthy x then x else default.

(** What [for call in v] runs through: the elements of a list, the keys
    of a dict, the characters of a string; nothing else can be iterated. *)
Definition py_iter (v : json) : M (list json) :=
  match v with
  | JArr items => ret items
  | JObj fields => ret (map JStr (first_seen [] (map fst fields)))
  | JStr s => ret (map (fun c => JStr [c]) s)
  | _ => raise (TypeError (not_iterable_str v))
  end.

Record tool_output : Type := {
  tool_call_id : json;
  output : str
}.

Definition execution_error (name : json) (e : str) : str :=
  lit "Eroare la executarea funcției '" ++ str_of name ++ lit "': " ++ e.

Definition unknown_function (name : json) : str :=
  lit "Eroare: funcție necunoscută '" ++ str_of name ++ lit "'.".

(** [name == "get_summary_by_title"] *)
Definition is_summary_tool (name : json) : bool :=
  match name with
  | JStr n => str_eqb n (lit "get_summary_by_title")
  | _ => false
  end.

(** The second half of the [try] block, once [args] is bound, with the
    [except] around it. *)
Definition run_tool (name args : json) : M str :=
  if is_summary_tool name then
    match args with
    | JObj fields => fun w =>
        let title :=
          match obj_get (lit "title") fields with
          | Some v => str_of v
          | None => []
          end in
        match get_summary_by_title title w with
        | (Ok s, w') => (Ok s, w')
        | (Raise e, w') => (Ok (execution_error name (exn_str e)), w')
        end
    | JNull | JBool _ | JNum _ | JStr _ | JArr _ =>
        ret (execution_error name (attribute_error_str args))
    end
  else ret (unknown_function name).

(** The [try] block of [build_tool_outputs] with its [except]: the output
    string of one call. *)
Definition tool_output_str (name raw_args : json) : M str :=
  match raw_args with
  | JObj _ => run_tool name raw_args
  | JStr raw =>
      if truthy (strip raw) then
        match json_loads raw with
        | Some args => run_tool name args
        | None => ret (execution_error name (json_error_str raw))
        end
      else run_tool name (JObj [])
  | JNull | JBool _ | JNum _ | JArr _ => run_tool name (JObj [])
  end.

(** The four lines of the loop body before the [try]: [call_id], [name]
    and [raw_args]. *)
Definition call_parts (call : json) : M (json * json * json) :=
  call_id <- py_get call (lit "id") ;;
  function <- py_get call (lit "function") ;;
  let fn := or_json (found_or_none function) (JObj []) in
  name <- py_get fn (lit "name") ;;
  raw_args <- py_get fn (lit "arguments") ;;
  ret (found_or_none call_id, found_or_none name, found_or_none raw_args).

(** The loop of [build_tool_outputs]. *)
Fixpoint tool_outputs_loop (tool_calls : list json)
  : M (list tool_output) :=
  match tool_calls with
  | [] => ret []
  | call :: rest =>
      parts <- call_parts call ;;
      let '(call_id, name, raw_args) := parts in
      output_str <- tool_output_str name raw_args ;;
      outputs <- tool_outputs_loop rest ;;
      ret (if json_truthy call_id
           then {| tool_call_id := call_id; output := output_str |}
                :: outputs
           else outputs)
  end.

(** [v != "submit_tool_outputs"] *)
Definition is_submit (v : json) : bool :=
  match v with
  | JStr t => str_eqb t (lit "submit_tool_outputs")
  | _ => false
  end.

(** tools.py: [build_tool_outputs] *)
Definition build_tool_outputs (required_action : json)
  : M (list tool_output) :=
  if negb (json_truthy required_action) then ret []
  else
    kind <- py_get required_action (lit "type") ;;
    if negb (is_submit (found_or_none kind)) then ret []
    else
      submit <- py_get required_action (lit "submit_tool_outputs") ;;
      found <- py_get (match submit with Some v => v | None => JObj [] end)
                      (lit "tool_calls") ;;
      tool_calls <- py_iter (or_json (found_or_none found) (JArr [])) ;;
      tool_outputs_loop tool_calls.

(** A tool call the loop can take apart: a dict whose ["function"] is a
    dict, or absent, or falsy. *)
Definition call_well_shaped (call : json) : bool :=
  match call with
  | JObj fields =>
      match obj_get (lit "function") fields with
      | Some (JObj _) | None => true
      | Some fn => negb (json_truthy fn)
      end
  | _ => false
  end.

(** An action that asks for tool outputs. *)
Definition asks_outputs (required_action : json) : bool :=
  match required_action with
  | JObj ((_ :: _) as fields) =>
      is_submit (found_or_none (obj_get (lit "type") fields))
  | _ => false
  end.

(** The calls such an action lists under ["submit_tool_outputs"], when
    they can be run through: [None] when what stands there has another
    shape. *)
Definition listed_calls (required_action : json) : option (list json) :=
  match required_action with
  | JObj fields =>
      match obj_get (lit "submit_tool_outputs") fields with
      | None => Some []
      | Some (JObj sub) =>
          match obj_get (lit "tool_calls") sub with
          | None => Some []
          | Some (JArr calls) => Some calls
          | Some v => if json_truthy v then None else Some []
          end
      | Some _ => None
      end
  | _ => None
  end.

(** The actions [build_tool_outputs] is written for: falsy ones, dicts of
    another ["type"], and those that ask for outputs with well-shaped
    calls. *)
Definition well_shaped (required_action : json) : bool :=
  negb (json_truthy required_action)
  || match required_action with
     | JObj _ =>
         negb (asks_outputs required_action)
         || match listed_calls required_action with
            | Some calls => forallb call_well_shaped calls
            | None => false
            end
     | _ => false
     end.

(** The ids of the calls that get an output. *)
Definition answered_ids (tool_calls : list json) : list json :=
  filter json_truthy
    (map (fun call =>
            match call with
            | JObj fields => found_or_none (obj_get (lit "id") fields)
            | _ => JNull
            end)
         tool_calls).

(** main.py: [_parse_cors], on the value of [CORS_ORIGINS] (the empty
    string when the variable is not set). *)
Definition _parse_cors (raw : str) : list str :=
  if negb (truthy raw)
  then [lit "http://localhost:5173"; lit "http://127.0.0.1:5173"]
  else filter truthy (map strip (split COMMA raw)).

(** main.py: [_on_startup]; the value is the line it prints. *)
Definition _on_startup : world -> str * world :=
  fun w =>
    match init_store false w with
    | (Ok (added, skipped), w') =>
        (lit "[startup] Chroma ready. added=" ++ str_of_nat added
         ++ lit ", skipped=" ++ str_of_nat skipped, w')
    | (Raise e, w') =>
        (lit "[startup] init_store warning: " ++ exn_str e, w')
    end.

(** A catalog of [count] entries titled "Book 0", "Book 1", ... *)
Definition numbered (n : nat) : book :=
  {| b_title := lit "Book " ++ str_of_nat n;
     b_authors := [lit "Anonymous"];
     b_tags := [];
     b_summary := lit "Volume " ++ str_of_nat n |}.

Definition shelf (count : nat) : list book := map numbered (seq 0 count).

(** main.py: [healthz] *)
Definition healthz : str := lit "ok".

End More.
End More.
Export More.

(** The values of the examples: the error of a text which is no JSON from
    its first character on, the errors of [get] and of [for] by the type
    of the value, and a number that is zero when the digits before its
    exponent are (which is so but for an exponent that underflows). *)
Definition type_name (v : json) : str :=
  match v with
  | JNull => lit "NoneType"
  | JBool _ => lit "bool"
  | JNum _ => lit "int"
  | JStr _ => lit "str"
  | JArr _ => lit "list"
  | JObj _ => lit "dict"
  end.

Fixpoint mantissa (literal : str) : str :=
  match literal with
  | [] => []
  | c :: rest =>
      if char_eqb c 101 || char_eqb c 69 then [] else c :: mantissa rest
  end.

Definition LatinValues : PyValues := {|
  json_error_str := fun _ => lit "Expecting value: line 1 column 1 (char 0)";
  attribute_error_str := fun v =>
    lit "'" ++ type_name v ++ lit "' object has no attribute 'get'";
  not_iterable_str := fun v =>
    lit "'" ++ type_name v ++ lit "' object is not iterable";
  num_truthy := fun literal =>
    existsb (fun c => (49 <=? c)%N && (c <=? 57)%N) (mantissa literal)
    || negb (existsb (char_eqb 48) (mantissa literal))
|}.

(* ================================================================== *)
(** * Properties *)
(* ================================================================== *)

(** Runs the state and exception plumbing of a goal. *)
Ltac run :=
  unfold bind, ret, raise, lift, trace, get_world, set_collection, set_cache,
    gbind, gret, glift, yield, gcatch in *;
  cbn [fst snd] in *.

Section StringFacts.
Context {rt : PyRuntime}.

Lemma truthy_false_nil (s : str) : truthy s = false <-> s = [].
Proof. destruct s; simpl; split; congruence. Qed.

Lemma truthy_true_cons (s : str) : truthy s = true <-> s <> [].
Proof. destruct s; simpl; split; congruence. Qed.

Lemma lstrip_all (p : char -> bool) (s : str) :
  Forall (fun c => p c = true) s -> lstrip_with p s = [].
Proof.
  induction 1 as [|c t Hc _ IH]; simpl; [reflexivity|].
  now rewrite Hc.
Qed.

Lemma lstrip_nil_all (p : char -> bool) (s : str) :
  lstrip_with p s = [] -> Forall (fun c => p c = true) s.
Proof.
  induction s as [|c t IH]; simpl; [constructor|].
  destruct (p c) eqn:Hc; [|discriminate].
  intros Ht. constructor; auto.
Qed.

(** A string strips to nothing exactly when it is all whitespace. *)
Lemma strip_nil_iff (s : str) :
  strip s = [] <-> Forall (fun c => isspace c = true) s.
Proof.
  unfold strip, strip_with. split.
  - intros Hs. apply lstrip_nil_all.
    destruct (lstrip_with isspace s) as [|c t] eqn:E; [reflexivity|].
    exfalso.
    assert (Hrev : lstrip_with isspace (rev (c :: t)) = []).
    { apply (f_equal (@rev char)) in Hs. rewrite rev_involutive in Hs.
      exact Hs. }
    apply lstrip_nil_all in Hrev.
    apply Forall_rev in Hrev. rewrite rev_involutive in Hrev.
    inversion Hrev as [|? ? Hc _]; subst.
    (* the first character left by lstrip is not a space *)
    clear -E Hc. induction s as [|d u IH]; simpl in E; [discriminate|].
    destruct (isspace d) eqn:Hd; [auto|].
    injection E as -> ->. congruence.
  - intros Hall. now rewrite (lstrip_all _ Hall).
Qed.

Lemma lstrip_fixed (p : char -> bool) (s : str) :
  match s with [] => True | c :: _ => p c = false end ->
  lstrip_with p s = s.
Proof. destruct s as [|c t]; simpl; [reflexivity|]. now intros ->. Qed.

Lemma lstrip_head (p : char -> bool) (s : str) :
  match lstrip_with p s with [] => True | c :: _ => p c = false end.
Proof.
  induction s as [|c t IH]; simpl; [exact I|].
  destruct (p c) eqn:Hc; [exact IH | exact Hc].
Qed.

Lemma lstrip_keeps_last (p : char -> bool) (l : str) (x : char) :
  p x = false -> exists u, lstrip_with p (l ++ [x]) = u ++ [x].
Proof.
  intros Hx. induction l as [|c l IH]; simpl.
  - rewrite Hx. now exists [].
  - destruct (p c); [exact IH | now exists (c :: l)].
Qed.

(** Stripping a stripped string changes nothing. *)
Lemma strip_with_idem (p : char -> bool) (s : str) :
  strip_with p (strip_with p s) = strip_with p s.
Proof.
  unfold strip_with.
  pose proof (lstrip_head p s) as Hhead.
  destruct (lstrip_with p s) as [|x a] eqn:Ea; [reflexivity|].
  cbn [rev].
  destruct (@lstrip_keeps_last p (rev a) x Hhead) as [u Hu]. rewrite Hu.
  rewrite rev_app_distr. cbn [rev app].
  rewrite (@lstrip_fixed p (x :: rev u) Hhead).
  cbn [rev]. rewrite rev_involutive, <- Hu.
  rewrite (@lstrip_fixed p _ (lstrip_head p (rev a ++ [x]))).
  rewrite Hu, rev_app_distr. reflexivity.
Qed.

Lemma strip_idem (s : str) : strip (strip s) = strip s.
Proof. apply strip_with_idem. Qed.

End StringFacts.

Section ModerationFacts.
Context {rt : PyRuntime}.

Lemma match_literal_length (stem consumed text c r : str) :
  match_literal stem consumed text = Some (c, r) ->
  length c = (length stem + length consumed)%nat.
Proof.
  revert consumed text.
  induction stem as [|p stem IH]; intros consumed text; simpl.
  - intros [= <- _]. reflexivity.
  - destruct text as [|x text]; [discriminate|].
    destruct (sre_ignorecase p x); [|discriminate].
    intros Hm. apply IH in Hm. simpl in Hm. lia.
Qed.

Lemma match_at_truthy (prev : option char) (text stem m : str) :
  truthy stem = true -> match_at prev text stem = Some m -> truthy m = true.
Proof.
  unfold match_at. intros Hstem.
  destruct (at_boundary prev (hd_error text)); [|discriminate].
  destruct (match_literal stem [] text) as [[c r]|] eqn:Hl; [|discriminate].
  destruct (word_star_b (hd_error c) r); [|discriminate].
  intros [= <-]. apply match_literal_length in Hl.
  apply truthy_true_cons. intros Hnil.
  apply (f_equal (@length char)) in Hnil.
  rewrite length_app, length_rev, Hl in Hnil.
  destruct stem; [discriminate|]. simpl in Hnil. lia.
Qed.

Lemma match_any_truthy (prev : option char) (text : str) (stems : list str)
  (m : str) :
  Forall (fun s => truthy s = true) stems ->
  match_any prev text stems = Some m -> truthy m = true.
Proof.
  induction 1 as [|stem stems Hs _ IH]; simpl; [discriminate|].
  destruct (match_at prev text stem) eqn:Hm; [|exact IH].
  intros [= <-]. eapply match_at_truthy; eauto.
Qed.

Lemma patterns_nonempty :
  Forall (fun s => truthy s = true) OFFENSIVE_PATTERNS.
Proof. unfold OFFENSIVE_PATTERNS. repeat constructor. Qed.

Lemma search_eq (prev : option char) (text : str) :
  search prev text =
  match match_any prev text OFFENSIVE_PATTERNS with
  | Some m => Some m
  | None =>
      match text with
      | [] => None
      | c :: text' => search (Some c) text'
      end
  end.
Proof. destruct text; reflexivity. Qed.

Lemma search_truthy (text : str) :
  forall prev m, search prev text = Some m -> truthy m = true.
Proof.
  induction text as [|c text IH]; intros prev m; rewrite search_eq.
  - destruct (match_any prev [] OFFENSIVE_PATTERNS) eqn:Hm; [|discriminate].
    intros [= <-]. exact (match_any_truthy _ _ patterns_nonempty Hm).
  - destruct (match_any prev (c :: text) OFFENSIVE_PATTERNS) eqn:Hm.
    + intros [= <-]. exact (match_any_truthy _ _ patterns_nonempty Hm).
    + apply IH.
Qed.

(** A match of the gate is never the empty string, so [if bad:] holds
    whenever there is one; and only a non-empty text can match. *)
Lemma is_offensive_flagged (text bad : str) :
  is_offensive text = Some bad -> truthy bad = true /\ truthy text = true.
Proof.
  unfold is_offensive. destruct (truthy text); simpl; [|discriminate].
  intros Hs. split; [eapply search_truthy; eauto | reflexivity].
Qed.

End ModerationFacts.

Section PolicyPath.
Context {rt : PyRuntime} {sv : Services}.

(** C1.  When the gate finds a disallowed term in the trimmed message,
    the stream is exactly the Token frame with the fixed redirect message
    (the same whatever term matched) followed by the Final frame whose
    recommendation and summary are null, nothing escapes the stream, and
    the world is left as it was: no call of the Retriever, of the Title
    Selector or of any other component is made. *)
Theorem moderation_short_circuit (payload_message bad : str) (w : world) :
  is_offensive (strip payload_message) = Some bad ->
  serve payload_message w =
    (Streamed
       [ {| f_event := Some (lit "token"); f_data := POLICY_MESSAGE |};
         {| f_event := Some (lit "final");
            f_data := json_dumps
                        (JObj [ (lit "final", JBool true);
                                (lit "recommendation", JNull);
                                (lit "summary", JNull) ]) |} ]
       None,
     w)
  /\ w_log (snd (serve payload_message w)) = w_log w.
Proof.
  intros Hbad.
  destruct (is_offensive_flagged _ Hbad) as [Hb Hmsg].
  assert (Hserve : serve payload_message w =
    (Streamed
       [ {| f_event := Some (lit "token"); f_data := POLICY_MESSAGE |};
         {| f_event := Some (lit "final");
            f_data := json_dumps
                        (JObj [ (lit "final", JBool true);
                                (lit "recommendation", JNull);
                                (lit "summary", JNull) ]) |} ]
       None, w)).
  { unfold serve, respond. rewrite Hmsg, Hbad. simpl negb. cbv iota.
    unfold flagged. rewrite Hb. reflexivity. }
  rewrite Hserve. split; reflexivity.
Qed.

End PolicyPath.

Lemma moderation_short_circuit_witness :
  @serve LatinRuntime (Scripted.services (lit "nope") [] None)
    (lit "  esti un idiot ") (Sample.fresh [Sample.hobbit]) =
    (Streamed
       [ {| f_event := Some (lit "token"); f_data := POLICY_MESSAGE |};
         {| f_event := Some (lit "final");
            f_data := lit "{" ++ [DQUOTE] ++ lit "final" ++ [DQUOTE]
                      ++ lit ": true, " ++ [DQUOTE] ++ lit "recommendation"
                      ++ [DQUOTE] ++ lit ": null, " ++ [DQUOTE]
                      ++ lit "summary" ++ [DQUOTE] ++ lit ": null}" |} ]
       None,
     Sample.fresh [Sample.hobbit]).
Proof.
  apply (@moderation_short_circuit LatinRuntime
           (Scripted.services (lit "nope") [] None)
           (lit "  esti un idiot ") (lit "idiot")
           (Sample.fresh [Sample.hobbit])).
  vm_compute. reflexivity.
Defined.

Section Retrieval.
Context {rt : PyRuntime} {sv : Services}.

(** C8.  On a query that is [None], empty or made of whitespace only,
    [retrieve] returns the empty list: it does not raise, and it leaves the
    world as it was but for the note of its own call, so that no embedding
    call and no search of the index is made. *)
Theorem retrieve_blank_query (query : option str) (k : Z) (w : world) :
  Forall (fun c => isspace c = true) (or_empty query) ->
  retrieve query k w =
    (Ok [],
     {| w_books := w_books w;
        w_collection := w_collection w;
        w_cache := w_cache w;
        w_log := CallRetrieve (or_empty query) k :: w_log w |}).
Proof.
  intros Hblank. apply strip_nil_iff in Hblank.
  unfold retrieve. rewrite Hblank. reflexivity.
Qed.

End Retrieval.

Lemma retrieve_blank_query_witness :
  @retrieve LatinRuntime Scripted.embedding_down (Some (lit "   ")) 3
    (Sample.fresh [Sample.hobbit]) =
    (Ok [],
     {| w_books := Books [Sample.hobbit];
        w_collection := [];
        w_cache := None;
        w_log := [CallRetrieve (lit "   ") 3] |}).
Proof.
  apply (@retrieve_blank_query LatinRuntime Scripted.embedding_down
           (Some (lit "   ")) 3 (Sample.fresh [Sample.hobbit])).
  repeat constructor.
Defined.

Section Streaming.
Context {rt : PyRuntime} {sv : Services}.

Lemma gfor_deltas (events : list stream_event) (w : world) :
  gfor events
    (fun event =>
       match event with
       | OutputTextDelta delta => yield (_sse delta TOKEN)
       | OtherEvent _ => gret tt
       end) w
  = (token_frames events, Ok tt, w).
Proof.
  revert w. induction events as [|ev events IH]; intros w; [reflexivity|].
  cbn [gfor]. unfold gbind at 1.
  destruct ev; unfold yield, gret; rewrite IH; reflexivity.
Qed.

Lemma token_frames_tokens (events : list stream_event) :
  Forall (fun f => is_token f = true /\ is_terminal f = false)
         (token_frames events).
Proof.
  induction events as [|ev events IH]; [constructor|].
  destruct ev; simpl; [constructor|]; auto.
Qed.

(** The body of the answer stream, step by step: the summary lookup, the
    forwarded deltas, then the Final frame or the exception that broke the
    provider stream. *)
Lemma stream_final_run (message : str) (items : list match_item)
  (title : str) (w : world) :
  _stream_final_with_summary message items title w =
  match (if truthy title then get_summary_by_title title else ret []) w with
  | (Raise e, w1) => ([], Raise e, w1)
  | (Ok summary, w1) =>
      let user := stream_user message items title summary in
      let w2 := noting (CallStream STREAM_SYSTEM user) w1 in
      let tokens := token_frames (fst (responses_stream STREAM_SYSTEM user)) in
      match snd (responses_stream STREAM_SYSTEM user) with
      | Some e => (tokens, Raise e, w2)
      | None =>
          (tokens
           ++ [_sse (json_dumps
                       (FinalResponse (Some (JObj [(lit "title", JStr title)]))
                                      (or_none summary))) FINAL],
           Ok tt, w2)
      end
  end.
Proof.
  unfold _stream_final_with_summary.
  unfold gbind at 1. unfold glift at 1.
  destruct ((if truthy title then get_summary_by_title title else ret []) w)
    as [[summary|e] w1]; [|reflexivity].
  cbv zeta.
  destruct (responses_stream STREAM_SYSTEM
              (stream_user message items title summary))
    as [events failure] eqn:Hs.
  unfold gbind, glift, trace. rewrite gfor_deltas. cbn [fst snd].
  destruct failure as [e|]; unfold raise, yield, noting;
    rewrite ?app_nil_r; reflexivity.
Qed.

End Streaming.

Section Protocol.
Context {rt : PyRuntime} {sv : Services}.

Lemma tokens_then_terminal (tokens : list frame) (last : frame) :
  Forall (fun f => is_token f = true /\ is_terminal f = false) tokens ->
  xorb (is_final last) (is_error last) = true ->
  terminated_once (tokens ++ [last]).
Proof.
  intros Htok Hlast. exists tokens, last. repeat split; auto.
  - eapply Forall_impl; [|exact Htok]. now intros f [Ht _].
  - rewrite filter_app. replace (filter is_terminal tokens) with (@nil frame).
    + simpl. unfold is_terminal.
      destruct (is_final last), (is_error last); try discriminate; reflexivity.
    + symmetry. induction Htok as [|f fs [_ Hf] _ IH]; simpl; [reflexivity|].
      now rewrite Hf.
Qed.

(** The answer stream, whatever happens inside its body: the forwarded
    deltas and then one terminal frame; the [except] lets nothing out. *)
Lemma event_generator_run (message : str) (items : list match_item)
  (title : str) (w : world) :
  exists tokens last w',
    event_generator message items title w = (tokens ++ [last], Ok tt, w')
    /\ Forall (fun f => is_token f = true /\ is_terminal f = false) tokens
    /\ xorb (is_final last) (is_error last) = true.
Proof.
  unfold event_generator, gcatch. rewrite stream_final_run.
  destruct ((if truthy title then get_summary_by_title title else ret []) w)
    as [[summary|e] w1].
  - cbv zeta.
    destruct (snd (responses_stream STREAM_SYSTEM
                     (stream_user message items title summary))) as [e|].
    + do 3 eexists. split; [reflexivity|].
      split; [apply token_frames_tokens | reflexivity].
    + do 3 eexists. split; [reflexivity|].
      split; [apply token_frames_tokens | reflexivity].
  - exists [], (error_frame e), w1. split; [reflexivity|].
    split; [constructor | reflexivity].
Qed.

(** C3.  Whenever [respond] hands back a stream, the frames sent are
    Token frames followed by exactly one terminal frame, a Final or an
    Error frame and never both, which is the last frame; and no exception
    leaves the stream. *)
Theorem terminal_frame_once (payload_message : str) (w w' : world)
  (frames : list frame) (escaped : option exn) :
  serve payload_message w = (Streamed frames escaped, w') ->
  escaped = None /\ terminated_once frames.
Proof.
  unfold serve.
  destruct (respond payload_message w) as [[body|e] w1] eqn:Hr;
    [|discriminate].
  assert (Hbody : exists tokens last w2,
             body w1 = (tokens ++ [last], Ok tt, w2)
             /\ Forall (fun f => is_token f = true /\ is_terminal f = false)
                       tokens
             /\ xorb (is_final last) (is_error last) = true).
  { revert Hr. unfold respond.
    destruct (truthy (strip payload_message)); cbn [negb];
      [|unfold raise; discriminate].
    destruct (flagged (is_offensive (strip payload_message))).
    - unfold ret. intros [= <- <-].
      exists [_sse POLICY_MESSAGE TOKEN],
             (_sse (json_dumps (FinalResponse None None)) FINAL), w.
      split; [reflexivity|]. split; [|reflexivity].
      constructor; [split; reflexivity | constructor].
    - unfold bind at 1.
      destruct (retrieve (Some (strip payload_message)) 3 w)
        as [[items|e] w2]; [|discriminate].
      unfold bind at 1.
      destruct (_select_title (strip payload_message) items w2)
        as [[title|e] w3]; [|discriminate].
      unfold ret. intros [= <- <-]. apply event_generator_run. }
  destruct Hbody as (tokens & last & w2 & Hrun & Htok & Hlast).
  rewrite Hrun. intros [= <- <- _].
  split; [reflexivity|]. now apply tokens_then_terminal.
Qed.

End Protocol.

Lemma terminal_frame_once_witness :
  let sv := Scripted.services (lit "nope")
              [ OutputTextDelta (lit "Iti recomand ");
                OtherEvent (lit "response.created");
                OutputTextDelta (lit "The Hobbit.") ] None in
  let w := {| w_books := Books [Sample.hobbit];
              w_collection := [Sample.hobbit_doc];
              w_cache := None; w_log := [] |} in
  let frames :=
    [ _sse (lit "Iti recomand ") TOKEN; _sse (lit "The Hobbit.") TOKEN;
      @_sse (@json_dumps LatinRuntime
              (FinalResponse
                 (Some (JObj [(lit "title", JStr (lit "The Hobbit"))]))
                 (Some (lit "Bilbo Baggins leaves the Shire.")))) FINAL ] in
  fst (@serve LatinRuntime sv (lit "vreau o carte fantasy") w)
    = Streamed frames None
  /\ terminated_once frames.
Proof.
  intros sv w frames. split; [vm_compute; reflexivity|].
  refine (proj2
    (@terminal_frame_once LatinRuntime sv (lit "vreau o carte fantasy") w
       _ frames None _)).
  vm_compute. reflexivity.
Defined.

Section EmptyTitle.
Context {rt : PyRuntime} {sv : Services}.



End EmptyTitle.


Section Failures.
Context {rt : PyRuntime} {sv : Services}.

(** A failure of the embedding call is raised by [respond] itself: the
    stream is never opened. *)
Lemma embedding_failure_not_streamed (payload_message : str) (w : world)
  (e : exn) :
  truthy (strip payload_message) = true ->
  flagged (is_offensive (strip payload_message)) = false ->
  embeddings_create [strip payload_message] = Raise e ->
  fst (serve payload_message w) = NoStream e.
Proof.
  intros Hmsg Hflag Hemb.
  unfold serve, respond. rewrite Hmsg, Hflag. cbn [negb].
  unfold bind at 1. unfold retrieve. cbn [or_empty].
  rewrite strip_idem, Hmsg. cbn [negb].
  unfold embed_texts. run. rewrite Hemb. reflexivity.
Qed.

(** So is a failure of the title-selection call. *)
Lemma selection_failure_not_streamed (payload_message : str) (w w1 : world)
  (items : list match_item) (e : exn) :
  truthy (strip payload_message) = true ->
  flagged (is_offensive (strip payload_message)) = false ->
  retrieve (Some (strip payload_message)) 3 w = (Ok items, w1) ->
  candidate_titles items <> [] ->
  responses_create SELECT_SYSTEM
    (lit "Cerere: " ++ strip payload_message ++ [NL]
     ++ lit "Titluri candidate: "
     ++ join (lit "; ") (candidate_titles items)) = Raise e ->
  fst (serve payload_message w) = NoStream e.
Proof.
  intros Hmsg Hflag Hret Hcand Hsel.
  unfold serve, respond. rewrite Hmsg, Hflag. cbn [negb].
  unfold bind at 1. rewrite Hret.
  unfold bind at 1. unfold _select_title.
  destruct (candidate_titles items) as [|t ts] eqn:Ht; [congruence|].
  run. rewrite Hsel. reflexivity.
Qed.

(** A failure of the streaming call is caught inside the stream and ends
    it with one Error frame. *)
Lemma stream_failure_error_frame (message : str) (items : list match_item)
  (title summary : str) (w w1 : world) (e : exn) :
  (if truthy title then get_summary_by_title title else ret []) w
    = (Ok summary, w1) ->
  snd (responses_stream STREAM_SYSTEM
         (stream_user message items title summary)) = Some e ->
  event_generator message items title w =
    (token_frames
       (fst (responses_stream STREAM_SYSTEM
               (stream_user message items title summary)))
     ++ [error_frame e],
     Ok tt,
     noting (CallStream STREAM_SYSTEM
               (stream_user message items title summary)) w1).
Proof.
  intros Hsum Hfail. unfold event_generator, gcatch.
  rewrite stream_final_run, Hsum. cbv zeta. rewrite Hfail. reflexivity.
Qed.

End Failures.

(** C2.  The claim fails on the code.  With the embedding capability
    down, a request that passes moderation does not end in an Error frame:
    [retrieve] runs before the stream exists and outside every [try], so
    the failure is raised by [respond] and no frame is sent at all. *)
Theorem embedding_failure_escapes :
  fst (@serve LatinRuntime Scripted.embedding_down
         (lit "vreau o carte fantasy") (Sample.fresh [Sample.hobbit]))
  = NoStream Scripted.EMBEDDING_DOWN.
Proof. vm_compute. reflexivity. Qed.

Section StrEq.

Lemma str_eqb_eq (a b : str) : str_eqb a b = true <-> a = b.
Proof.
  revert b. induction a as [|x a IH]; destruct b as [|y b]; simpl;
    try (split; congruence).
  unfold char_eqb. rewrite andb_true_iff, N.eqb_eq, IH.
  split; [intros [-> ->]; reflexivity | intros [= -> ->]; auto].
Qed.

Lemma str_eqb_refl (a : str) : str_eqb a a = true.
Proof. now apply str_eqb_eq. Qed.

Lemma mem_In (x : str) (xs : list str) : mem x xs = true <-> In x xs.
Proof.
  unfold mem. rewrite existsb_exists. split.
  - intros (y & Hy & Heq). apply str_eqb_eq in Heq. now subst.
  - intros Hin. exists x. split; [exact Hin | apply str_eqb_refl].
Qed.

End StrEq.

Section TitleSelector.
Context {rt : PyRuntime} {sv : Services}.

Lemma candidate_titles_app (xs ys : list match_item) :
  candidate_titles (xs ++ ys) = candidate_titles xs ++ candidate_titles ys.
Proof.
  unfold candidate_titles. now rewrite flat_map_app, filter_app.
Qed.

Lemma candidate_titles_one (x : match_item) :
  candidate_titles [x] =
  match i_title x with
  | Some raw => if truthy (strip raw) then [strip raw] else []
  | None => []
  end.
Proof.
  unfold candidate_titles. simpl.
  destruct (i_title x) as [raw|]; [|reflexivity].
  destruct raw as [|c raw]; [reflexivity|].
  simpl. now destruct (truthy (strip (c :: raw))).
Qed.

Lemma candidate_titles_cons (x : match_item) (xs : list match_item) :
  candidate_titles (x :: xs) = candidate_titles [x] ++ candidate_titles xs.
Proof. exact (candidate_titles_app [x] xs). Qed.

Lemma candidate_titles_In (items : list match_item) (t : str) :
  In t (candidate_titles items) <->
  t <> [] /\
  exists x raw, In x items /\ i_title x = Some raw /\ strip raw = t.
Proof.
  induction items as [|x items IH].
  - simpl. split; [tauto | intros (_ & y & raw & [] & _)].
  - rewrite candidate_titles_cons, in_app_iff, IH, candidate_titles_one.
    split.
    + intros [Hx | (Hne & y & raw & Hy & Ht & Hs)].
      * destruct (i_title x) as [raw|] eqn:Ht; [|contradiction].
        destruct (truthy (strip raw)) eqn:Hs; [|contradiction].
        destruct Hx as [<-|[]]. split; [now apply truthy_true_cons|].
        exists x, raw. simpl. auto.
      * split; [exact Hne|]. exists y, raw. simpl. auto.
    + intros (Hne & y & raw & [<-|Hy] & Ht & Hs).
      * left. rewrite Ht. apply truthy_true_cons in Hne.
        rewrite Hs, Hne. now left.
      * right. split; [exact Hne|]. now exists y, raw.
Qed.

(** C7, as the code has it.  The candidate list holds the trimmed,
    non-empty titles of the retrieved matches: each match gives its trimmed
    title or nothing, and the list is these in the order of the matches,
    repeated titles kept.  When the list is empty the selector returns the
    empty string and makes no completion call. *)
Theorem candidate_titles_in_order (items : list match_item) :
  (forall t,
      In t (candidate_titles items) <->
      t <> [] /\
      exists x raw, In x items /\ i_title x = Some raw /\ strip raw = t)
  /\ (forall x,
        candidate_titles [x] =
        match i_title x with
        | Some raw => if truthy (strip raw) then [strip raw] else []
        | None => []
        end)
  /\ (forall xs ys,
        candidate_titles (xs ++ ys)
        = candidate_titles xs ++ candidate_titles ys)
  /\ (forall message w,
        candidate_titles items = [] ->
        _select_title message items w
        = (Ok [], noting (CallSelectTitle message) w)).
Proof.
  split; [exact (candidate_titles_In items)|].
  split; [exact candidate_titles_one|].
  split; [exact candidate_titles_app|].
  intros message w Hnil. unfold _select_title. rewrite Hnil. reflexivity.
Qed.

(** C5.  With a non-empty candidate list and a reply obtained from the
    completion capability, the selector returns a value, and that value is
    a candidate, whatever the reply says.  It is the first candidate when
    the reply is not JSON, when it is JSON but no object, and when the
    (trimmed) title it decodes to is not in the candidate list. *)
Theorem select_title_fallback (message : str) (items : list match_item)
  (w : world) (first : str) (others : list str) (output_text : option str) :
  candidate_titles items = first :: others ->
  let user :=
    lit "Cerere: " ++ message ++ [NL] ++ lit "Titluri candidate: "
    ++ join (lit "; ") (first :: others) in
  responses_create SELECT_SYSTEM user = Ok output_text ->
  let text := strip (or_empty output_text) in
  let w' :=
    noting (CallComplete SELECT_SYSTEM user)
           (noting (CallSelectTitle message) w) in
  (exists chosen,
      _select_title message items w = (Ok chosen, w')
      /\ In chosen (first :: others))
  /\ (json_loads text = None ->
      _select_title message items w = (Ok first, w'))
  /\ (decode_choice text = None ->
      _select_title message items w = (Ok first, w'))
  /\ (forall chosen,
        decode_choice text = Some chosen ->
        mem chosen (first :: others) = false ->
        _select_title message items w = (Ok first, w')).
Proof.
  intros Hcand user Hreply text w'.
  assert (Hrun : _select_title message items w =
            (Ok match decode_choice text with
                | Some chosen =>
                    if mem chosen (first :: others) then chosen else first
                | None => first
                end, w')).
  { unfold _select_title. rewrite Hcand. run. fold user. rewrite Hreply.
    fold text. destruct (decode_choice text); reflexivity. }
  rewrite Hrun. repeat split.
  - eexists. split; [reflexivity|].
    destruct (decode_choice text) as [chosen|]; [|now left].
    destruct (mem chosen (first :: others)) eqn:Hm; [|now left].
    now apply mem_In.
  - intros Hjson. unfold decode_choice. now rewrite Hjson.
  - now intros ->.
  - intros chosen -> Hm. now rewrite Hm.
Qed.

End TitleSelector.

(** C7, as the claim states it, fails: two matches with one title give
    the same candidate twice. *)
Lemma candidate_titles_repeat :
  @candidate_titles LatinRuntime
    [Sample.titled (lit "Dune"); Sample.titled (lit "Dune")]
  = [lit "Dune"; lit "Dune"]
  /\ ~ NoDup (@candidate_titles LatinRuntime
                [Sample.titled (lit "Dune"); Sample.titled (lit "Dune")]).
Proof.
  split; [vm_compute; reflexivity|].
  vm_compute. intros Hnd. inversion Hnd as [|x l Hnotin _]; subst.
  apply Hnotin. now left.
Qed.

Lemma candidate_titles_in_order_witness :
  @_select_title LatinRuntime (Scripted.services (lit "nope") [] None)
    (lit "vreau o carte")
    [ {| i_title := Some (lit "   "); i_summary := None;
         i_authors := EmptyList; i_tags := EmptyList;
         i_distance := None; i_document := None;
         i_id := lit "blank" |} ]
    (Sample.fresh [])
  = (Ok [], noting (CallSelectTitle (lit "vreau o carte")) (Sample.fresh [])).
Proof.
  apply (proj2 (proj2 (proj2
    (@candidate_titles_in_order LatinRuntime
       (Scripted.services (lit "nope") [] None) _)))).
  vm_compute. reflexivity.
Defined.

Lemma select_title_fallback_witness :
  fst (@_select_title LatinRuntime (Scripted.services (lit "nope") [] None)
         (lit "vreau o carte SF")
         [Sample.titled (lit "Dune"); Sample.titled (lit "The Hobbit")]
         (Sample.fresh []))
  = Ok (lit "Dune").
Proof.
  refine (f_equal fst
    (proj1 (proj2
      (@select_title_fallback LatinRuntime
         (Scripted.services (lit "nope") [] None)
         (lit "vreau o carte SF")
         [Sample.titled (lit "Dune"); Sample.titled (lit "The Hobbit")]
         (Sample.fresh []) (lit "Dune") [lit "The Hobbit"]
         (Some (lit "nope")) _ _)) _)).
  - vm_compute. reflexivity.
  - vm_compute. reflexivity.
  - vm_compute. reflexivity.
Defined.

Section SummaryLookup.
Context {rt : PyRuntime}.

Lemma dict_get_set {V} (k k' : str) (v : V) (d : list (str * V)) :
  dict_get k (dict_set k' v d) =
  if str_eqb k' k then Some v else dict_get k d.
Proof.
  induction d as [|[k0 v0] d IH]; simpl.
  - reflexivity.
  - destruct (str_eqb k0 k') eqn:E0; simpl.
    + apply str_eqb_eq in E0. subst k0.
      now destruct (str_eqb k' k).
    + destruct (str_eqb k0 k) eqn:E1; [|exact IH].
      destruct (str_eqb k' k) eqn:E2; [|reflexivity].
      apply str_eqb_eq in E1, E2. subst.
      now rewrite str_eqb_refl in E0.
Qed.

Lemma find_snoc {A} (f : A -> bool) (l : list A) (x : A) :
  find f (l ++ [x]) =
  match find f l with
  | Some y => Some y
  | None => if f x then Some x else None
  end.
Proof.
  induction l as [|y l IH]; simpl; [reflexivity|].
  now destruct (f y).
Qed.

(** Looking a key up in the index finds the last book of the catalog with
    that normalized title. *)
Lemma build_index_get (books : list book) :
  forall (index : list (str * book)) (k : str),
    dict_get k (build_index books index) =
    match find (titled_as k) (rev books) with
    | Some b => Some b
    | None => dict_get k index
    end.
Proof.
  induction books as [|b books IH]; intros index k; [reflexivity|].
  cbn [build_index rev]. rewrite find_snoc.
  destruct (truthy (strip (b_title b))) eqn:Ht; rewrite IH;
    destruct (find (titled_as k) (rev books)); try reflexivity;
    unfold titled_as, has_title, norm_title; rewrite Ht; cbn [andb].
  - rewrite dict_get_set.
    now destruct (str_eqb (_norm (strip (b_title b))) k).
  - reflexivity.
Qed.

Lemma dict_set_fresh {V} (k : str) (v : V) (d : list (str * V)) :
  ~ In k (map fst d) -> dict_set k v d = d ++ [(k, v)].
Proof.
  induction d as [|[k0 v0] d IH]; simpl; [reflexivity|].
  intros Hfresh. destruct (str_eqb k0 k) eqn:E.
  - apply str_eqb_eq in E. tauto.
  - rewrite IH; [reflexivity | tauto].
Qed.

(** With no two titled entries under one normalized title, the index is
    the titled entries of the catalog, in catalog order. *)
Lemma build_index_distinct (books : list book) :
  forall index : list (str * book),
    NoDup (map fst index ++ map norm_title (filter has_title books)) ->
    build_index books index
    = index ++ map (fun b => (norm_title b, b)) (filter has_title books).
Proof.
  induction books as [|b books IH]; intros index Hnd;
    cbn [build_index filter].
  - now rewrite app_nil_r.
  - cbn [filter] in Hnd. unfold has_title at 1 in Hnd. unfold has_title at 1.
    destruct (truthy (strip (b_title b))) eqn:Ht.
    + cbn [map] in Hnd.
      rewrite dict_set_fresh.
      * rewrite IH.
        -- now rewrite <- app_assoc.
        -- rewrite map_app, <- app_assoc. exact Hnd.
      * apply NoDup_remove_2 in Hnd. rewrite in_app_iff in Hnd. tauto.
    + apply IH. exact Hnd.
Qed.

Lemma ensure_cache_view (w : world) (c : list book * list (str * book)) :
  catalog_view w = Some c ->
  exists w', _ensure_cache w = (Ok c, w') /\ w_log w' = w_log w.
Proof.
  unfold catalog_view, _ensure_cache, _load_books. run.
  destruct (w_cache w) as [c0|].
  - intros [= ->]. now exists w.
  - destruct (w_books w); try discriminate.
    intros [= <-]. eexists. split; reflexivity.
Qed.

Lemma startswith_iff (p s : str) :
  startswith p s = true <-> exists post, s = p ++ post.
Proof.
  revert s. induction p as [|x p IH]; intros s.
  - split; [intros _; now exists s | intros _; now destruct s].
  - destruct s as [|y s]; cbn [startswith].
    + split; [discriminate | intros [post H]; discriminate].
    + unfold char_eqb. rewrite andb_true_iff, N.eqb_eq, IH. split.
      * intros [-> [post ->]]. now exists post.
      * intros [post [= -> ->]]. split; [reflexivity | now exists post].
Qed.

Lemma contains_iff (needle hay : str) :
  contains needle hay = true
  <-> exists pre post, hay = pre ++ needle ++ post.
Proof.
  induction hay as [|c t IH]; cbn [contains];
    rewrite orb_true_iff, startswith_iff.
  - split.
    + intros [[post H] | H]; [|discriminate]. now exists [], post.
    + intros (pre & post & H). left.
      destruct pre; [now exists post | discriminate].
  - rewrite IH. split.
    + intros [[post H] | (pre & post & H)].
      * now exists [], post.
      * exists (c :: pre), post. cbn [app]. now rewrite H.
    + intros (pre & post & H). destruct pre as [|x pre].
      * left. now exists post.
      * right. cbn [app] in H. injection H as -> ->. now exists pre, post.
Qed.

(** The test of the comprehension: the prefix test adds nothing to the
    substring test. *)
Lemma candidate_iff (key tkey : str) :
  contains key tkey || startswith key tkey = true
  <-> exists pre post, tkey = pre ++ key ++ post.
Proof.
  rewrite orb_true_iff, contains_iff, startswith_iff. split.
  - intros [H | [post H]]; [exact H | now exists [], post].
  - intros H. now left.
Qed.

Lemma candidate_not (key tkey : str) :
  ~ (exists pre post, tkey = pre ++ key ++ post) ->
  contains key tkey || startswith key tkey = false.
Proof.
  intros Hnot.
  destruct (contains key tkey || startswith key tkey) eqn:E; [|reflexivity].
  apply candidate_iff in E. contradiction.
Qed.

Lemma dict_get_first {V} (key : str) (v : V) (before after : list (str * V)) :
  ~ In key (map fst before) ->
  dict_get key (before ++ (key, v) :: after) = Some v.
Proof.
  induction before as [|[k0 v0] before IH];
    cbn [app map dict_get fst In]; intros Hnot.
  - now rewrite str_eqb_refl.
  - destruct (str_eqb k0 key) eqn:E.
    + apply str_eqb_eq in E. tauto.
    + apply IH. tauto.
Qed.

Lemma dict_get_absent {V} (key : str) (d : list (str * V)) :
  ~ In key (map fst d) -> dict_get key d = None.
Proof.
  induction d as [|[k0 v0] d IH]; cbn [map dict_get fst In]; intros Hnot;
    [reflexivity|].
  destruct (str_eqb k0 key) eqn:E.
  - apply str_eqb_eq in E. tauto.
  - apply IH. tauto.
Qed.

Lemma dict_get_In {V} (k : str) (v : V) (d : list (str * V)) :
  NoDup (map fst d) -> In (k, v) d -> dict_get k d = Some v.
Proof.
  induction d as [|[k0 v0] d IH]; cbn [map dict_get fst In];
    intros Hnd Hin; [tauto|].
  inversion Hnd as [|? ? Hfresh Hnd']; subst.
  destruct Hin as [[= -> ->] | Hin].
  - now rewrite str_eqb_refl.
  - destruct (str_eqb k0 k) eqn:E; [|auto].
    apply str_eqb_eq in E. subst k0. exfalso. apply Hfresh.
    now apply (in_map fst) in Hin.
Qed.

Lemma candidates_first (key tkey : str) (best : book)
      (skipped later : list (str * book)) :
  contains key tkey || startswith key tkey = true ->
  (forall k, In k (map fst skipped) ->
             contains key k || startswith key k = false) ->
  candidates_of key (skipped ++ (tkey, best) :: later)
  = best :: candidates_of key later.
Proof.
  intros Hhit Hmiss. unfold candidates_of.
  induction skipped as [|[k0 b0] skipped IH]; cbn [app filter fst].
  - rewrite Hhit. reflexivity.
  - rewrite (Hmiss k0) by (cbn [map fst In]; auto).
    apply IH. intros k Hk. apply Hmiss. cbn [map fst In]. auto.
Qed.

Lemma candidates_none (key : str) (index : list (str * book)) :
  (forall k, In k (map fst index) ->
             contains key k || startswith key k = false) ->
  candidates_of key index = [].
Proof.
  intros Hmiss. unfold candidates_of.
  induction index as [|[k0 b0] index IH]; cbn [filter fst]; [reflexivity|].
  rewrite (Hmiss k0) by (cbn [map fst In]; auto).
  apply IH. intros k Hk. apply Hmiss. cbn [map fst In]. auto.
Qed.

Lemma str_eqb_sym (a b : str) : str_eqb a b = str_eqb b a.
Proof.
  destruct (str_eqb a b) eqn:Eab, (str_eqb b a) eqn:Eba; try reflexivity.
  - apply str_eqb_eq in Eab. subst. now rewrite str_eqb_refl in Eba.
  - apply str_eqb_eq in Eba. subst. now rewrite str_eqb_refl in Eab.
Qed.

Lemma dict_set_keys {V} (k : str) (v : V) (d : list (str * V)) :
  map fst (dict_set k v d)
  = if mem k (map fst d) then map fst d else map fst d ++ [k].
Proof.
  induction d as [|[k0 v0] d IH]; [reflexivity|].
  cbn [dict_set map fst]. unfold mem. cbn [existsb].
  fold (mem k (map fst d)). rewrite (str_eqb_sym k k0).
  destruct (str_eqb k0 k); cbn [orb map fst]; [reflexivity|].
  rewrite IH. now destruct (mem k (map fst d)).
Qed.

(** The keys of the index, in their order. *)
Lemma build_index_keys (books : list book) :
  forall index : list (str * book),
    map fst (build_index books index)
    = map fst index
      ++ first_seen (map fst index) (map norm_title (filter has_title books)).
Proof.
  induction books as [|b books IH]; intros index;
    cbn [build_index filter].
  - cbn [map first_seen]. now rewrite app_nil_r.
  - unfold has_title at 1.
    destruct (truthy (strip (b_title b))) eqn:Ht; [|apply IH].
    rewrite IH, dict_set_keys. cbn [map first_seen].
    fold (norm_title b).
    destruct (mem (norm_title b) (map fst index)); [reflexivity|].
    now rewrite <- app_assoc.
Qed.

Lemma NoDup_snoc {A} (l : list A) (x : A) :
  NoDup l -> ~ In x l -> NoDup (l ++ [x]).
Proof.
  induction l as [|y l IH]; cbn [app]; intros Hnd Hx.
  - constructor; [auto | constructor].
  - inversion Hnd as [|? ? Hy Hnd']; subst. constructor.
    + rewrite in_app_iff. cbn [In] in *. intros [H | [H | []]]; subst; tauto.
    + apply IH; [exact Hnd' | cbn [In] in Hx; tauto].
Qed.

Lemma first_seen_NoDup (keys : list str) :
  forall seen, NoDup seen -> NoDup (seen ++ first_seen seen keys).
Proof.
  induction keys as [|k keys IH]; intros seen Hnd; cbn [first_seen].
  - now rewrite app_nil_r.
  - destruct (mem k seen) eqn:Hk; [now apply IH|].
    change (seen ++ k :: first_seen (seen ++ [k]) keys)
      with (seen ++ [k] ++ first_seen (seen ++ [k]) keys).
    rewrite app_assoc. apply IH. apply NoDup_snoc; [exact Hnd|].
    intros Hin. apply mem_In in Hin. congruence.
Qed.

Lemma build_index_NoDup (books : list book) :
  NoDup (map fst (build_index books [])).
Proof.
  rewrite build_index_keys. apply (@first_seen_NoDup _ [] (NoDup_nil _)).
Qed.

Lemma find_rev_last {A} (f : A -> bool) (l : list A) (x : A) :
  find f (rev l) = Some x ->
  exists earlier later,
    l = earlier ++ x :: later /\ f x = true
    /\ forall y, In y later -> f y = false.
Proof.
  induction l as [|a l IH]; cbn [rev]; [discriminate|].
  rewrite find_snoc. destruct (find f (rev l)) as [y|] eqn:Hf.
  - intros [= ->]. destruct (IH eq_refl) as (e & la & -> & Hx & Hl).
    exists (a :: e), la. auto.
  - destruct (f a) eqn:Ha; [|discriminate]. intros [= ->].
    exists [], l. repeat split; auto.
    intros y Hy. apply (find_none _ _ Hf). now rewrite <- in_rev.
Qed.

Lemma norm_title_unfold (b : book) :
  norm_title b = casefold (strip (b_title b)).
Proof. unfold norm_title, _norm. now rewrite strip_idem. Qed.

(** C6, as the code has it.  For a title that is not blank and a catalog
    that loads, the lookup goes by strict precedence over the title index.
    Write [key] for the trimmed, case-folded title, and say that a key of
    the index contains it when the key is [pre ++ key ++ post] for some
    [pre] and [post].

    (1) When [key] is a key of the index, the entry under it is the
    answer (its trimmed summary, or the message that it has none),
    whatever other keys contain the query.
    (2) Only when it is no key: the answer comes from the first entry of
    the index whose key contains [key].
    (3) Only when no key of the index contains [key]: the answer is that
    of [get_close_matches] on the title as given, over all catalog titles,
    with [n = 1] and cutoff 0.6 -- the not-found message when it returns
    nothing, else the entry under the trimmed, case-folded close title,
    and a [KeyError] when the index has none.
    (4) The index built from the catalog has the normalized titles of the
    titled entries as keys, each once, in the order in which they first
    appear in the catalog, and under a key stands the last titled entry of
    the catalog with that normalized title.
    (5) So when no two titled entries share a normalized title, the index
    is the titled entries in catalog order, and the answer at stage (2)
    comes from the first titled entry of the catalog whose normalized
    title contains [key]. *)
Theorem summary_precedence (title : str) (w : world) (books : list book)
  (index : list (str * book)) :
  truthy (strip title) = true ->
  catalog_view w = Some (books, index) ->
  let key := casefold (strip title) in
  let within (tkey : str) := exists pre post, tkey = pre ++ key ++ post in
  let answer := fst (get_summary_by_title title w) in
  let summary_or (b : book) (message : str) :=
    if truthy (strip (b_summary b)) then strip (b_summary b) else message in
  let titled := filter (fun b => truthy (strip (b_title b))) books in
  let nkey (b : book) := casefold (strip (b_title b)) in
  (forall before b after,
      index = before ++ (key, b) :: after ->
      ~ In key (map fst before) ->
      answer = Ok (summary_or b
                     (lit "Cartea „" ++ b_title b
                      ++ lit "” nu are un rezumat disponibil.")))
  /\ (forall skipped tkey best later,
        ~ In key (map fst index) ->
        index = skipped ++ (tkey, best) :: later ->
        within tkey ->
        (forall k, In k (map fst skipped) -> ~ within k) ->
        answer = Ok (summary_or best
                       (lit "Cartea „" ++ b_title best
                        ++ lit "” nu are rezumat disponibil.")))
  /\ ((forall k, In k (map fst index) -> ~ within k) ->
      match get_close_matches title (map b_title books) 1 (6 # 10) with
      | [] =>
          answer = Ok (lit "Nu am găsit nicio carte cu titlul „" ++ title
                       ++ lit "”.")
      | close :: _ =>
          let ckey := casefold (strip close) in
          (forall before b after,
              index = before ++ (ckey, b) :: after ->
              ~ In ckey (map fst before) ->
              answer = Ok (summary_or b
                             (lit "Am găsit cartea cea mai apropiată „"
                              ++ close ++ lit "”, dar nu are rezumat.")))
          /\ (~ In ckey (map fst index) -> answer = Raise (KeyError ckey))
      end)
  /\ (index = build_index books [] ->
      map fst index = first_seen [] (map nkey titled)
      /\ forall k b,
          In (k, b) index ->
          exists earlier later,
            books = earlier ++ b :: later
            /\ truthy (strip (b_title b)) = true
            /\ nkey b = k
            /\ forall b', In b' later ->
                          truthy (strip (b_title b')) = true ->
                          nkey b' <> k)
  /\ (index = build_index books [] ->
      NoDup (map nkey titled) ->
      index = map (fun b => (nkey b, b)) titled
      /\ forall skipped best later,
          titled = skipped ++ best :: later ->
          (forall b, In b titled -> nkey b <> key) ->
          within (nkey best) ->
          (forall b, In b skipped -> ~ within (nkey b)) ->
          answer = Ok (summary_or best
                         (lit "Cartea „" ++ b_title best
                          ++ lit "” nu are rezumat disponibil."))).
Proof.
  intros Htitle Hview key within answer summary_or titled nkey.
  assert (Hview' : catalog_view (noting (CallSummary title) w)
                   = Some (books, index)) by exact Hview.
  destruct (ensure_cache_view _ Hview') as (w1 & Hcache & _).
  assert (Hrun : answer =
    match dict_get key index with
    | Some b => Ok (render_exact b)
    | None =>
        match candidates_of key index with
        | [] => fuzzy_result title books index
        | best :: _ => Ok (render_candidate best)
        end
    end).
  { unfold answer, get_summary_by_title.
    unfold bind at 1. unfold trace at 1. fold (noting (CallSummary title) w).
    unfold bind at 1. rewrite Hcache.
    assert (Ht : truthy title = true).
    { destruct title; [|reflexivity].
      unfold strip, strip_with in Htitle. discriminate. }
    rewrite Ht, Htitle. cbn [negb orb]. unfold _norm. fold key.
    unfold fuzzy_result, _norm.
    destruct (dict_get key index); [reflexivity|].
    destruct (candidates_of key index); [|reflexivity].
    destruct (get_close_matches title (map b_title books) 1 (6 # 10));
      [reflexivity|].
    destruct (dict_get (casefold (strip s)) index); reflexivity. }
  assert (Hsub : forall skipped tkey best later,
             ~ In key (map fst index) ->
             index = skipped ++ (tkey, best) :: later ->
             within tkey ->
             (forall k, In k (map fst skipped) -> ~ within k) ->
             answer = Ok (render_candidate best)).
  { intros skipped tkey best later Hnokey Hsplit Hin Hskip.
    rewrite Hrun, (dict_get_absent _ _ Hnokey), Hsplit.
    rewrite candidates_first; [reflexivity | now apply candidate_iff |].
    intros k Hk. apply candidate_not. now apply Hskip. }
  assert (Hnames : map norm_title (filter has_title books) = map nkey titled).
  { apply map_ext. exact norm_title_unfold. }
  split.
  { intros before b after -> Hfresh.
    rewrite Hrun, dict_get_first by exact Hfresh. reflexivity. }
  split; [exact Hsub|].
  split.
  { intros Hnone.
    assert (Hnokey : ~ In key (map fst index)).
    { intros Hin. apply (Hnone key Hin). exists [], [].
      now rewrite app_nil_r. }
    rewrite Hrun, (dict_get_absent _ _ Hnokey), candidates_none
      by (intros k Hk; apply candidate_not; now apply Hnone).
    unfold fuzzy_result, _norm.
    destruct (get_close_matches title (map b_title books) 1 (6 # 10))
      as [|close rest]; [reflexivity|].
    split.
    - intros before b after -> Hfresh.
      now rewrite dict_get_first by exact Hfresh.
    - intros Hfresh. now rewrite dict_get_absent by exact Hfresh. }
  split.
  { intros ->. split.
    - rewrite build_index_keys. cbn [map app]. now rewrite Hnames.
    - intros k b Hin.
      pose proof (dict_get_In _ _ _ (build_index_NoDup books) Hin) as Hget.
      rewrite build_index_get in Hget. cbn [dict_get] in Hget.
      destruct (find (titled_as k) (rev books)) as [b0|] eqn:Hf;
        [|discriminate].
      injection Hget as ->.
      destruct (find_rev_last _ _ Hf) as (earlier & later & Hb & Hk & Hlater).
      exists earlier, later. unfold titled_as, has_title in Hk.
      apply andb_true_iff in Hk. destruct Hk as [Ht Hk].
      apply str_eqb_eq in Hk. rewrite norm_title_unfold in Hk.
      repeat split; auto.
      intros b' Hb' Ht' Hk'. specialize (Hlater b' Hb').
      unfold titled_as, has_title in Hlater.
      rewrite Ht', norm_title_unfold in Hlater. cbn [andb] in Hlater.
      fold (nkey b') in Hlater. rewrite Hk', str_eqb_refl in Hlater.
      discriminate. }
  intros Hindex Hnd.
  assert (Hflat : index = map (fun b => (nkey b, b)) titled).
  { rewrite Hindex, build_index_distinct.
    - cbn [app]. apply map_ext. intros b. now rewrite norm_title_unfold.
    - cbn [map app]. now rewrite Hnames. }
  split; [exact Hflat|].
  intros skipped best later Hsplit Hnoexact Hin Hskip.
  apply (Hsub (map (fun b => (nkey b, b)) skipped) (nkey best) best
              (map (fun b => (nkey b, b)) later)).
  - rewrite Hflat, map_map. cbn [fst]. intros Hkey.
    apply in_map_iff in Hkey. destruct Hkey as (b & Hb & Hbin).
    now apply (Hnoexact b).
  - rewrite Hflat, Hsplit, map_app. reflexivity.
  - exact Hin.
  - intros k Hk. rewrite map_map in Hk. cbn [fst] in Hk.
    apply in_map_iff in Hk. destruct Hk as (b & <- & Hb).
    now apply Hskip.
Qed.

End SummaryLookup.

(** C6, as the claim states it, fails: the substring stage does not take
    the first candidate in catalog order.  In the catalog "Dune", "Dune
    Messiah", "DUNE" the first entry whose normalized title contains
    "dun" is "Dune"; the index files "DUNE" under the key of "Dune", in
    its place, and the query "dun" is answered with the summary of "DUNE",
    the third entry. *)
Lemma summary_not_first_in_catalog :
  let books := [Sample.dune; Sample.dune_messiah; Sample.dune_capitals] in
  find (fun b => contains (@_norm LatinRuntime (lit "dun"))
                          (@norm_title LatinRuntime b)) books
  = Some Sample.dune
  /\ @build_index LatinRuntime books []
     = [(lit "dune", Sample.dune_capitals);
        (lit "dune messiah", Sample.dune_messiah)]
  /\ fst (@get_summary_by_title LatinRuntime (lit "dun")
            (Sample.fresh books))
     = Ok (b_summary Sample.dune_capitals)
  /\ b_summary Sample.dune_capitals <> b_summary Sample.dune.
Proof.
  split; [vm_compute; reflexivity|].
  split; [vm_compute; reflexivity|].
  split; [vm_compute; reflexivity|].
  vm_compute. discriminate.
Qed.

Lemma summary_precedence_witness :
  fst (@get_summary_by_title LatinRuntime (lit "dune")
         (Sample.fresh [Sample.dune_messiah; Sample.dune]))
  = Ok (lit "Paul Atreides on Arrakis.")
  /\ fst (@get_summary_by_title LatinRuntime (lit "dun")
            (Sample.fresh [Sample.dune_messiah; Sample.dune]))
     = Ok (lit "Twelve years after the jihad.").
Proof.
  pose proof (@summary_precedence LatinRuntime (lit "dune")
                (Sample.fresh [Sample.dune_messiah; Sample.dune])
                [Sample.dune_messiah; Sample.dune]
                [(lit "dune messiah", Sample.dune_messiah);
                 (lit "dune", Sample.dune)]
                eq_refl eq_refl) as (Hexact & _).
  pose proof (@summary_precedence LatinRuntime (lit "dun")
                (Sample.fresh [Sample.dune_messiah; Sample.dune])
                [Sample.dune_messiah; Sample.dune]
                [(lit "dune messiah", Sample.dune_messiah);
                 (lit "dune", Sample.dune)]
                eq_refl eq_refl) as (_ & Hsub & _).
  split.
  - rewrite (Hexact [(lit "dune messiah", Sample.dune_messiah)]
               Sample.dune []).
    + vm_compute. reflexivity.
    + vm_compute. reflexivity.
    + vm_compute. intros [H | []]. discriminate H.
  - rewrite (Hsub [] (lit "dune messiah") Sample.dune_messiah
               [(lit "dune", Sample.dune)]).
    + vm_compute. reflexivity.
    + vm_compute. intros [H | [H | []]]; discriminate H.
    + vm_compute. reflexivity.
    + exists [], (lit "e messiah"). vm_compute. reflexivity.
    + intros k [].
Defined.

Section Slug.
Context {rt : PyRuntime}.

Lemma lstrip_In (p : char -> bool) (s : str) (c : char) :
  In c (lstrip_with p s) -> In c s.
Proof.
  induction s as [|x s IH]; simpl; [auto|].
  destruct (p x); [right; auto | auto].
Qed.

Lemma strip_with_In (p : char -> bool) (s : str) (c : char) :
  In c (strip_with p s) -> In c s.
Proof.
  unfold strip_with. rewrite <- in_rev. intros Hin.
  apply lstrip_In in Hin. rewrite <- in_rev in Hin.
  now apply lstrip_In in Hin.
Qed.

Lemma replace_go_In (old new : str) (s : str) :
  forall (skip : nat) (c : char),
    In c (replace_go old new skip s) -> In c new \/ In c s.
Proof.
  induction s as [|x s IH]; intros skip c; cbn [replace_go]; [simpl; auto|].
  destruct skip as [|k].
  - destruct (startswith old (x :: s)).
    + rewrite in_app_iff. intros [Hn | Hr]; [now left|].
      destruct (IH _ _ Hr); simpl; auto.
    + simpl. intros [-> | Hr]; [auto|]. destruct (IH _ _ Hr); auto.
  - intros Hr. destruct (IH _ _ Hr); simpl; auto.
Qed.

(** Every character of a slug is a dash or an alphanumeric character of
    the lowercased title. *)
Lemma slug_chars (title : str) (c : char) :
  In c (_slugify title) ->
  c = DASH \/ (isalnum c = true /\ In c (lower title)).
Proof.
  unfold _slugify, replace. intros Hin.
  apply replace_go_In in Hin. destruct Hin as [[<-|[]] | Hin]; [now left|].
  apply strip_with_In in Hin. apply in_map_iff in Hin.
  destruct Hin as (x & Hx & Hin).
  destruct (isalnum x) eqn:Hal; [|now left].
  subst x. right. auto.
Qed.

Lemma prepare_ids (books : list book) :
  map (fun r => fst (fst r)) (prepare books) =
  map (fun b => _slugify (strip (b_title b)))
      (filter (fun b => truthy (strip (b_title b))) books).
Proof.
  induction books as [|b books IH]; [reflexivity|].
  cbn [prepare filter].
  destruct (truthy (strip (b_title b))); cbn [negb]; [|exact IH].
  cbn [map fst]. now rewrite IH.
Qed.

End Slug.

Section Indexing.
Context {rt : PyRuntime} {sv : Services}.

Lemma embed_texts_frame (texts : list str) (w w' : world)
  (r : outcome (list vector)) :
  embed_texts texts w = (r, w') ->
  w_books w' = w_books w /\ w_collection w' = w_collection w.
Proof.
  unfold embed_texts. destruct texts as [|t texts]; run.
  - intros [= _ <-]. auto.
  - intros [= _ <-]. auto.
Qed.

Lemma zip_docs_nonempty (ids docs : list str) (embs : list vector)
  (metas : list meta) :
  ids <> [] ->
  length docs = length ids -> length embs = length ids ->
  length metas = length ids ->
  zip_docs ids docs embs metas <> [].
Proof.
  destruct ids, docs, embs, metas; simpl; try congruence; discriminate.
Qed.

Lemma col_add_ok (ids docs : list str) (embs : list vector)
  (metas : list meta) (w w' : world) :
  col_add ids docs embs metas w = (Ok tt, w') ->
  w_books w' = w_books w
  /\ (length (w_collection w) <= length (w_collection w'))%nat
  /\ (ids <> [] -> w_collection w' <> []).
Proof.
  unfold col_add. run.
  destruct (Nat.eqb (length docs) (length ids)) eqn:Hd; cbn [andb negb];
    [|discriminate].
  destruct (Nat.eqb (length embs) (length ids)) eqn:He; cbn [andb negb];
    [|discriminate].
  destruct (Nat.eqb (length metas) (length ids)) eqn:Hm; cbn [andb negb];
    [|discriminate].
  destruct (existsb (fun i => negb (truthy i)) ids); [discriminate|].
  destruct (has_duplicates ids); [discriminate|].
  intros [= <-]. cbn [w_books w_collection].
  split; [reflexivity|]. split.
  - rewrite length_app. lia.
  - intros Hids. apply Nat.eqb_eq in Hd, He, Hm.
    destruct (w_collection w) as [|d col]; [|discriminate].
    cbn [map app]. intros Hnil.
    apply (@zip_docs_nonempty ids docs embs metas Hids Hd He Hm).
    rewrite <- Hnil. symmetry. apply forallb_filter_id.
    apply forallb_forall. reflexivity.
Qed.

Lemma add_batches_ok (starts : list nat) (rows : list (str * str * meta)) :
  forall (added n : nat) (w w' : world),
    add_batches starts rows added w = (Ok n, w') ->
    w_books w' = w_books w
    /\ (length (w_collection w) <= length (w_collection w'))%nat.
Proof.
  induction starts as [|i starts IH]; intros added n w w'; cbn [add_batches].
  - unfold ret. intros [= _ <-]. auto.
  - unfold bind at 1.
    destruct (embed_texts _ w) as [[vectors|e] w1] eqn:He; [|discriminate].
    apply embed_texts_frame in He. destruct He as [Hb1 Hc1].
    unfold bind at 1.
    destruct (col_add _ _ vectors _ w1) as [[[]|e] w2] eqn:Ha;
      [|discriminate].
    apply col_add_ok in Ha. destruct Ha as (Hb2 & Hc2 & _).
    intros Hrest. apply IH in Hrest. destruct Hrest as [Hb3 Hc3].
    split; [congruence | rewrite <- Hc1; lia].
Qed.

Lemma range0_first (n : nat) :
  exists rest, range0 (S n) BATCH = 0%nat :: rest.
Proof.
  unfold range0, BATCH.
  replace (S n + 64 - 1)%nat with (n + 1 * 64)%nat by lia.
  rewrite Nat.div_add by lia. rewrite Nat.add_1_r.
  cbn [range_step]. eexists. reflexivity.
Qed.

(** Ingestion that returns leaves the index empty only when there was
    nothing to index. *)
Lemma add_batches_fills (rows : list (str * str * meta)) (n : nat)
  (w w' : world) :
  rows <> [] ->
  add_batches (range0 (length rows) BATCH) rows 0 w = (Ok n, w') ->
  w_collection w' <> [].
Proof.
  destruct rows as [|row rows]; [congruence|]. intros _.
  cbn [length]. destruct (range0_first (length rows)) as [rest ->].
  cbn [add_batches]. unfold bind at 1.
  destruct (embed_texts _ w) as [[vectors|e] w1] eqn:He; [|discriminate].
  unfold bind at 1.
  destruct (col_add _ _ vectors _ w1) as [[[]|e] w2] eqn:Ha;
    [|discriminate].
  apply col_add_ok in Ha. destruct Ha as (_ & _ & Hne).
  intros Hrest. apply add_batches_ok in Hrest. destruct Hrest as [_ Hlen].
  assert (Hw2 : w_collection w2 <> []).
  { apply Hne. unfold slice, BATCH. cbn. discriminate. }
  destruct (w_collection w2); [congruence|].
  destruct (w_collection w'); [simpl in Hlen; lia | discriminate].
Qed.

Lemma index_books_populated (w : world) (entries : list book) :
  w_books w = Books entries ->
  w_collection w <> [] ->
  index_books false w = (Ok (0%nat, length (w_collection w)), w).
Proof.
  intros Hbooks Hcol. unfold index_books, _load_books, col_count. run.
  rewrite Hbooks.
  destruct (w_collection w) as [|d col]; [congruence|]. reflexivity.
Qed.

(** C4, as the code has it.  When the catalog source loads, the index
    holds a document and [force] is false, [index_books] returns
    [(0, existingCount)] and leaves the world as it was: no embedding call
    and no insertion.  Hence, when a call with [force] false has returned,
    the next one makes no embedding call and no insertion either and
    returns [(0, N)], [N] the number of documents the index holds. *)
Theorem index_books_populate_once :
  (forall w entries,
      w_books w = Books entries ->
      w_collection w <> [] ->
      index_books false w = (Ok (0%nat, length (w_collection w)), w))
  /\ (forall w r w1,
        index_books false w = (Ok r, w1) ->
        index_books false w1
        = (Ok (0%nat, length (w_collection w1)), w1)).
Proof.
  split; [exact index_books_populated|].
  intros w r w1 Hfirst.
  assert (Hcases :
    exists entries,
      w_books w1 = Books entries
      /\ (w_collection w1 = [] -> w1 = w /\ prepare entries = [])).
  { revert Hfirst. unfold index_books, _load_books, col_count. run.
    destruct (w_books w) as [| | |entries] eqn:Hbooks; try discriminate.
    destruct (w_collection w) as [|d col] eqn:Hcol; cbn [length Nat.eqb negb andb].
    - destruct (add_batches _ (prepare entries) 0 w) as [[added|e] w2] eqn:Ha;
        [|discriminate].
      intros [= _ <-]. exists entries.
      destruct (add_batches_ok _ _ _ _ Ha) as [Hb _].
      split; [congruence|]. intros Hempty.
      destruct (prepare entries) as [|row rows] eqn:Hrows.
      + cbn in Ha. unfold ret in Ha. injection Ha as _ <-. auto.
      + exfalso. rewrite <- Hrows in Ha.
        apply add_batches_fills in Ha; [auto | rewrite Hrows; discriminate].
    - intros [= _ <-]. exists entries. split; [exact Hbooks|].
      rewrite Hcol. discriminate. }
  destruct Hcases as (entries & Hbooks & Hempty).
  destruct (w_collection w1) as [|d col] eqn:Hcol.
  - destruct (Hempty eq_refl) as [-> Hrows].
    unfold index_books, _load_books, col_count. run.
    rewrite Hbooks, Hcol, Hrows. reflexivity.
  - rewrite <- Hcol. apply (index_books_populated _ Hbooks).
    rewrite Hcol. discriminate.
Qed.

End Indexing.

Section Ingestion.
Context {rt : PyRuntime} {sv : Services}.

Lemma slice_In {A} (i j : nat) (xs : list A) (x : A) :
  In x (slice i j xs) -> In x xs.
Proof.
  unfold slice. intros Hin.
  rewrite <- (firstn_skipn i xs). apply in_or_app. right.
  rewrite <- (firstn_skipn (j - i) (skipn i xs)). apply in_or_app. now left.
Qed.

Lemma zip_rows_In (batch : list (str * str * meta)) :
  forall (embs : list vector) (d : idoc),
    In d (zip_docs (map (fun r => fst (fst r)) batch)
                   (map (fun r => snd (fst r)) batch)
                   embs (map snd batch)) ->
    exists row, In row batch /\ d_id d = fst (fst row) /\ d_meta d = snd row.
Proof.
  induction batch as [|row batch IH]; intros embs d; cbn [map zip_docs].
  - intros [].
  - destruct embs as [|e embs]; [intros []|].
    intros [<- | Hin].
    + exists row. cbn. auto.
    + destruct (IH _ _ Hin) as (row' & Hrow & Hid & Hmeta).
      exists row'. cbn. auto.
Qed.

Lemma col_add_In (ids docs : list str) (embs : list vector)
  (metas : list meta) (w w' : world) (r : outcome unit) (d : idoc) :
  col_add ids docs embs metas w = (r, w') ->
  In d (w_collection w') ->
  In d (w_collection w) \/ In d (zip_docs ids docs embs metas).
Proof.
  unfold col_add. run.
  destruct (negb _); [intros [= _ <-]; auto|].
  destruct (existsb (fun i => negb (truthy i)) ids); [intros [= _ <-]; auto|].
  destruct (has_duplicates ids); [intros [= _ <-]; auto|].
  intros [= _ <-]. cbn [w_collection]. rewrite in_app_iff.
  intros [Hold | Hnew]; [auto|]. apply filter_In in Hnew. tauto.
Qed.

Lemma add_batches_In (starts : list nat) (rows : list (str * str * meta))
  (d : idoc) :
  forall (added : nat) (w w' : world) (r : outcome nat),
    add_batches starts rows added w = (r, w') ->
    In d (w_collection w') ->
    In d (w_collection w)
    \/ exists row, In row rows /\ d_id d = fst (fst row) /\ d_meta d = snd row.
Proof.
  induction starts as [|i starts IH]; intros added w w' r; cbn [add_batches].
  - unfold ret. intros [= _ <-]. auto.
  - unfold bind at 1.
    destruct (embed_texts _ w) as [[vectors|e] w1] eqn:He.
    + apply embed_texts_frame in He. destruct He as [_ Hc1].
      unfold bind at 1.
      destruct (col_add _ _ vectors _ w1) as [[[]|e] w2] eqn:Ha.
      * intros Hrest Hin. destruct (IH _ _ _ _ Hrest Hin) as [Hw2 | Hrow];
          [|auto].
        destruct (@col_add_In _ _ _ _ _ _ _ _ Ha Hw2) as [Hw1 | Hzip].
        -- left. congruence.
        -- right. apply zip_rows_In in Hzip.
           destruct Hzip as (row & Hrow & Hid & Hmeta).
           exists row. split; [eapply slice_In; eauto | auto].
      * intros [= _ <-] Hin.
        destruct (@col_add_In _ _ _ _ _ _ _ _ Ha Hin) as [Hw1 | Hzip].
        -- left. congruence.
        -- right. apply zip_rows_In in Hzip.
           destruct Hzip as (row & Hrow & Hid & Hmeta).
           exists row. split; [eapply slice_In; eauto | auto].
    + apply embed_texts_frame in He. destruct He as [_ Hc1].
      intros [= _ <-] Hin. left. congruence.
Qed.

Lemma prepare_In (books : list book) (row : str * str * meta) :
  In row (prepare books) ->
  exists b,
    In b books /\ truthy (strip (b_title b)) = true
    /\ fst (fst row) = _slugify (strip (b_title b))
    /\ m_title (snd row) = Some (strip (b_title b)).
Proof.
  induction books as [|b books IH]; cbn [prepare]; [intros []|].
  destruct (truthy (strip (b_title b))) eqn:Ht; cbn [negb].
  - intros [<- | Hin].
    + exists b. cbn. auto.
    + destruct (IH Hin) as (b' & Hb' & Hrest). exists b'. cbn. auto.
  - intros Hin. destruct (IH Hin) as (b' & Hb' & Hrest). exists b'. cbn. auto.
Qed.

(** Whatever [index_books] leaves in the index was there before or was
    made from a titled entry of the catalog. *)
Lemma index_books_In (force : bool) (w w' : world) (entries : list book)
  (r : outcome (nat * nat)) (d : idoc) :
  w_books w = Books entries ->
  index_books force w = (r, w') ->
  In d (w_collection w') ->
  In d (w_collection w) \/ indexed_from entries d.
Proof.
  intros Hbooks.
  assert (Hadd : forall w1 r1 w2,
             (forall x, In x (w_collection w1) -> In x (w_collection w)) ->
             add_batches (range0 (length (prepare entries)) BATCH)
               (prepare entries) 0 w1 = (r1, w2) ->
             In d (w_collection w2) ->
             In d (w_collection w) \/ indexed_from entries d).
  { intros w1 r1 w2 Hsub Ha Hin.
    destruct (@add_batches_In _ _ _ _ _ _ _ Ha Hin)
      as [Hold | (row & Hrow & Hid & Hmeta)]; [left; auto|].
    right. destruct (@prepare_In _ _ Hrow) as (b & Hb & Ht & Hslug & Htitle).
    exists b. rewrite Hid, Hmeta. auto. }
  unfold index_books, _load_books, col_count, col_get_ids, col_delete. run.
  rewrite Hbooks.
  destruct force, (Nat.eqb (length (w_collection w)) 0);
    cbn [negb andb].
  - destruct (add_batches _ (prepare entries) 0 w) as [[added|e] w2] eqn:Ha;
      intros [= _ <-]; eapply Hadd; eauto.
  - match goal with
    | |- context [add_batches ?st ?rows 0 ?w1] =>
        destruct (add_batches st rows 0 w1) as [[added|e] w2] eqn:Ha
    end;
      intros [= _ <-]; eapply Hadd; try exact Ha;
      cbn [w_collection]; intros x Hx; apply filter_In in Hx; tauto.
  - destruct (add_batches _ (prepare entries) 0 w) as [[added|e] w2] eqn:Ha;
      intros [= _ <-]; eapply Hadd; eauto.
  - intros [= _ <-]. auto.
Qed.

Lemma filter_lstrip (keep strip_it : char -> bool) (s : str) :
  (forall c, strip_it c = true -> keep c = false) ->
  filter keep (lstrip_with strip_it s) = filter keep s.
Proof.
  intros Hdisj. induction s as [|c t IH]; [reflexivity|].
  cbn [lstrip_with]. destruct (strip_it c) eqn:Hc; [|reflexivity].
  cbn [filter]. now rewrite (Hdisj c Hc).
Qed.

Lemma filter_strip_with (keep strip_it : char -> bool) (s : str) :
  (forall c, strip_it c = true -> keep c = false) ->
  filter keep (strip_with strip_it s) = filter keep s.
Proof.
  intros Hdisj. unfold strip_with.
  rewrite filter_rev, (filter_lstrip keep strip_it _ Hdisj), filter_rev.
  rewrite rev_involutive. now apply filter_lstrip.
Qed.

Lemma filter_replace_dashes (keep : char -> bool) :
  keep DASH = false ->
  forall (n : nat) (s : str),
    (length s <= n)%nat ->
    filter keep (replace [DASH; DASH] [DASH] s) = filter keep s.
Proof.
  intros Hdash. unfold replace.
  induction n as [|n IH]; intros s Hlen.
  - destruct s; [reflexivity | simpl in Hlen; lia].
  - destruct s as [|x t]; [reflexivity|]. cbn [replace_go].
    destruct (startswith [DASH; DASH] (x :: t)) eqn:Hst.
    + destruct t as [|y t'];
        cbn [startswith] in Hst; [now rewrite andb_false_r in Hst|].
      apply andb_true_iff in Hst. destruct Hst as [Hx Hy].
      apply andb_true_iff in Hy. destruct Hy as [Hy _].
      apply N.eqb_eq in Hx, Hy. subst x y.
      cbn [length Nat.sub replace_go app filter]. rewrite Hdash.
      apply IH. simpl in Hlen. lia.
    + cbn [filter]. rewrite IH by (simpl in Hlen; lia). reflexivity.
Qed.

(** The alphanumeric characters of a slug are those of the lowercased
    title, in their order. *)
Lemma slug_keeps_alnum (title : str) :
  isalnum DASH = false ->
  filter isalnum (_slugify title) = filter isalnum (lower title).
Proof.
  intros Hdash. unfold _slugify, strip_chars.
  rewrite (@filter_replace_dashes isalnum Hdash _ _ (Nat.le_refl _)).
  rewrite filter_strip_with.
  - induction (lower title) as [|c l IH]; [reflexivity|].
    cbn [map filter]. destruct (isalnum c) eqn:Hc.
    + rewrite Hc. now rewrite IH.
    + now rewrite Hdash.
  - intros c Hc. cbn in Hc. rewrite orb_false_r in Hc.
    apply N.eqb_eq in Hc. now subst c.
Qed.

(** Titles whose lowercased forms agree except where both have a
    character that is not alphanumeric get the same slug. *)
Lemma slug_collides (title1 title2 : str) :
  Forall2 (fun a b => a = b \/ (isalnum a = false /\ isalnum b = false))
          (lower title1) (lower title2) ->
  _slugify title1 = _slugify title2.
Proof.
  intros Hsame. unfold _slugify. do 2 f_equal.
  induction Hsame as [|a b l1 l2 Hab _ IH]; [reflexivity|].
  cbn [map]. rewrite IH. f_equal.
  destruct Hab as [-> | [-> ->]]; reflexivity.
Qed.

(** C9, as the code has it.  Every document that [index_books] adds to
    the index comes from a catalog entry whose trimmed title is not empty,
    and its id is the slug of that title: an entry whose title is empty
    after trimming gives no row to index, and the ids of the rows are the
    slugs of the trimmed titles of the other entries, in catalog order.
    The slug is a function of the title; each of its characters is a dash
    or an alphanumeric character of the lowercased title; and, the dash
    being no alphanumeric character, its alphanumeric characters are
    those of the lowercased title, in their order.  It is not collision
    resistant: two titles get the same slug when their lowercased forms
    are equal, and when these agree except at places where both have a
    character that is not alphanumeric. *)
Theorem slug_of_title :
  (forall force w w' entries r d,
      w_books w = Books entries ->
      index_books force w = (r, w') ->
      In d (w_collection w') ->
      In d (w_collection w) \/ indexed_from entries d)
  /\ (forall b rest,
      truthy (strip (b_title b)) = false ->
      prepare (b :: rest) = prepare rest)
  /\ (forall books,
        map (fun r => fst (fst r)) (prepare books) =
        map (fun b => _slugify (strip (b_title b)))
            (filter (fun b => truthy (strip (b_title b))) books))
  /\ (forall title1 title2,
        title1 = title2 -> _slugify title1 = _slugify title2)
  /\ (forall title c,
        In c (_slugify title) ->
        c = DASH \/ (isalnum c = true /\ In c (lower title)))
  /\ (forall title,
        isalnum DASH = false ->
        filter isalnum (_slugify title) = filter isalnum (lower title))
  /\ (forall title1 title2,
        lower title1 = lower title2 -> _slugify title1 = _slugify title2)
  /\ (forall title1 title2,
        Forall2 (fun a b => a = b \/ (isalnum a = false /\ isalnum b = false))
                (lower title1) (lower title2) ->
        _slugify title1 = _slugify title2).
Proof.
  split; [exact index_books_In|].
  split.
  { intros b rest Hblank. cbn [prepare]. now rewrite Hblank. }
  split; [exact prepare_ids|].
  split; [now intros title1 title2 ->|].
  split; [exact slug_chars|].
  split; [exact slug_keeps_alnum|].
  split; [|exact slug_collides].
  intros title1 title2 Hlower. unfold _slugify. now rewrite Hlower.
Qed.

End Ingestion.

(** C9, as the claim states it, fails: the slug is not collision
    resistant.  "Dune!" and "Dune?", which differ in a punctuation mark,
    share an id, and so do "Dune" and "DUNE", which differ in case.  Nor
    is it made of the characters a URL is written in: the letters it keeps
    are those of [str.isalnum], and "Creangă" gets the id "creangă", whose
    last character lies beyond ASCII. *)
Lemma slug_collision :
  lit "Dune!" <> lit "Dune?"
  /\ @_slugify LatinRuntime (lit "Dune!")
     = @_slugify LatinRuntime (lit "Dune?")
  /\ lit "Dune" <> lit "DUNE"
  /\ @_slugify LatinRuntime (lit "Dune")
     = @_slugify LatinRuntime (lit "DUNE")
  /\ map (fun r => fst (fst r))
       (@prepare LatinRuntime
          [ {| b_title := lit "Dune!"; b_authors := []; b_tags := [];
               b_summary := lit "first" |};
            {| b_title := lit "Dune?"; b_authors := []; b_tags := [];
               b_summary := lit "second" |} ])
     = [lit "dune"; lit "dune"]
  /\ @_slugify LatinRuntime (lit "Creangă") = lit "creangă"
  /\ (exists c, In c (@_slugify LatinRuntime (lit "Creangă"))
                /\ (127 < c)%N).
Proof.
  split; [vm_compute; discriminate|].
  split; [vm_compute; reflexivity|].
  split; [vm_compute; discriminate|].
  split; [vm_compute; reflexivity|].
  split; [vm_compute; reflexivity|].
  split; [vm_compute; reflexivity|].
  exists 259%N. split; [vm_compute; tauto | reflexivity].
Qed.

Lemma slug_of_title_witness :
  @prepare LatinRuntime [Sample.untitled; Sample.hobbit]
  = @prepare LatinRuntime [Sample.hobbit]
  /\ @_slugify LatinRuntime (lit "The Hobbit") = lit "the-hobbit"
  /\ @_slugify LatinRuntime (lit "The Hobbit")
     = @_slugify LatinRuntime (lit "the hobbit")
  /\ @_slugify LatinRuntime (lit "The Hobbit!")
     = @_slugify LatinRuntime (lit "The Hobbit?")
  /\ filter Latin.isalnum (@_slugify LatinRuntime (lit "The Hobbit"))
     = lit "thehobbit".
Proof.
  pose proof (@slug_of_title LatinRuntime
                (Scripted.services (lit "nope") [] None))
    as (_ & Hdrop & _ & _ & _ & Hkeep & Hcase & Hpunct).
  split.
  - apply Hdrop. vm_compute. reflexivity.
  - split; [vm_compute; reflexivity|].
    split; [apply Hcase; vm_compute; reflexivity|].
    split.
    + apply Hpunct. vm_compute.
      repeat (apply Forall2_cons;
              [first [left; reflexivity | right; split; reflexivity]|]).
      apply Forall2_nil.
    + change Latin.isalnum with (@isalnum LatinRuntime).
      rewrite (Hkeep (lit "The Hobbit") eq_refl). vm_compute. reflexivity.
Defined.


(** C4, as the claim states it, fails: the catalog source is read before
    the index is looked at, so with the source gone a populated index does
    not get [(0, existingCount)] but the exception of [_load_books]. *)
Lemma index_books_without_catalog :
  length (w_collection Sample.no_catalog) = 1%nat
  /\ @index_books LatinRuntime (Scripted.services (lit "nope") [] None)
       false Sample.no_catalog
     = (Raise (FileNotFoundError
                 (lit "books file not found: " ++ BOOKS_JSON)),
        Sample.no_catalog)
  /\ fst (@index_books LatinRuntime (Scripted.services (lit "nope") [] None)
            false Sample.no_catalog)
     <> Ok (0%nat, 1%nat).
Proof.
  split; [reflexivity|].
  split; [vm_compute; reflexivity | vm_compute; discriminate].
Qed.

Lemma index_books_populate_once_witness :
  let sv := Scripted.services (lit "nope") [] None in
  let w := Sample.fresh [Sample.untitled; Sample.hobbit; Sample.dune] in
  fst (@index_books LatinRuntime sv false w) = Ok (2%nat, 0%nat)
  /\ fst (@index_books LatinRuntime sv false
            (snd (@index_books LatinRuntime sv false w)))
     = Ok (0%nat, 2%nat)
  /\ snd (@index_books LatinRuntime sv false
            (snd (@index_books LatinRuntime sv false w)))
     = snd (@index_books LatinRuntime sv false w).
Proof.
  intros sv w.
  pose proof (proj2 (@index_books_populate_once LatinRuntime sv) w
                (2%nat, 0%nat) (snd (@index_books LatinRuntime sv false w)))
    as Hsecond.
  assert (Hfirst : @index_books LatinRuntime sv false w
                   = (Ok (2%nat, 0%nat),
                      snd (@index_books LatinRuntime sv false w)))
    by (vm_compute; reflexivity).
  specialize (Hsecond Hfirst).
  split; [vm_compute; reflexivity|].
  rewrite Hsecond. split; [vm_compute; reflexivity | reflexivity].
Defined.

(* ================================================================== *)
(** * Further properties *)
(* ================================================================== *)

Unset Implicit Arguments.

Section GateMatches.
Context {rt : PyRuntime}.

Lemma match_literal_parts (stem : str) :
  forall (consumed text c r : str),
    match_literal stem consumed text = Some (c, r) ->
    exists m,
      c = rev m ++ consumed /\ text = m ++ r
      /\ Forall2 (fun p x => sre_ignorecase p x = true) stem m.
Proof.
  induction stem as [|p stem IH]; intros consumed text c r; simpl.
  - intros [= <- <-]. exists []. auto.
  - destruct text as [|x text]; [discriminate|].
    destruct (sre_ignorecase p x) eqn:Hp; [|discriminate].
    intros Hm. destruct (IH _ _ _ _ Hm) as (m & -> & -> & Hall).
    exists (x :: m). cbn [rev]. rewrite <- app_assoc. auto.
Qed.

Lemma word_star_b_parts (text : str) :
  forall (prev : option char) (tail : str),
    word_star_b prev text = Some tail ->
    exists post,
      text = tail ++ post
      /\ Forall (fun c => is_word c = true) tail
      /\ at_boundary (match rev tail with [] => prev | c :: _ => Some c end)
                     (hd_error post) = true.
Proof.
  induction text as [|c text IH]; intros prev tail; cbn [word_star_b].
  - destruct (at_boundary prev None) eqn:Hb; [|discriminate].
    intros [= <-]. exists []. auto.
  - assert (Hstop :
      (if at_boundary prev (Some c) then Some [] else None) = Some tail ->
      exists post,
        c :: text = tail ++ post
        /\ Forall (fun c => is_word c = true) tail
        /\ at_boundary (match rev tail with [] => prev | x :: _ => Some x end)
                       (hd_error post) = true).
    { destruct (at_boundary prev (Some c)) eqn:Hb; [|discriminate].
      intros [= <-]. exists (c :: text). auto. }
    destruct (is_word c) eqn:Hw; [|exact Hstop].
    destruct (word_star_b (Some c) text) as [m|] eqn:Hm; [|exact Hstop].
    intros [= <-]. destruct (IH _ _ Hm) as (post & -> & Hall & Hb).
    exists post. split; [reflexivity|]. split; [auto|].
    cbn [rev]. destruct (rev m) as [|x xs]; exact Hb.
Qed.

(** What a match of one alternative at one position looks like. *)
Lemma match_at_parts (prev : option char) (text stem m : str) :
  truthy stem = true ->
  match_at prev text stem = Some m ->
  exists literal word post,
    m = literal ++ word /\ text = m ++ post
    /\ Forall2 (fun p x => sre_ignorecase p x = true) stem literal
    /\ Forall (fun c => is_word c = true) word
    /\ at_boundary prev (hd_error text) = true
    /\ at_boundary (hd_error (rev m)) (hd_error post) = true.
Proof.
  unfold match_at. intros Hstem.
  destruct (at_boundary prev (hd_error text)) eqn:Hstart; [|discriminate].
  destruct (match_literal stem [] text) as [[c r]|] eqn:Hl; [|discriminate].
  destruct (word_star_b (hd_error c) r) as [tail|] eqn:Hw; [|discriminate].
  intros [= <-].
  destruct (match_literal_parts _ _ _ _ _ Hl) as (literal & -> & -> & Hci).
  destruct (word_star_b_parts _ _ _ Hw) as (post & -> & Hword & Hend).
  rewrite app_nil_r in *. rewrite rev_involutive.
  exists literal, tail, post.
  repeat split; auto; [now rewrite app_assoc|].
  rewrite rev_app_distr. destruct (rev tail) as [|x xs]; exact Hend.
Qed.

Lemma match_any_parts (prev : option char) (text : str) (stems : list str)
  (m : str) :
  match_any prev text stems = Some m ->
  exists stem, In stem stems /\ match_at prev text stem = Some m.
Proof.
  induction stems as [|stem stems IH]; simpl; [discriminate|].
  destruct (match_at prev text stem) eqn:Hm.
  - intros [= <-]. exists stem. auto.
  - intros Hrest. destruct (IH Hrest) as (stem' & Hin & Hat).
    exists stem'. auto.
Qed.

Lemma search_parts (text : str) :
  forall (prev : option char) (m : str),
    search prev text = Some m ->
    exists stem pre rest,
      In stem OFFENSIVE_PATTERNS /\ text = pre ++ rest
      /\ match_at (match rev pre with [] => prev | c :: _ => Some c end)
                  rest stem = Some m.
Proof.
  induction text as [|c text IH]; intros prev m; rewrite search_eq.
  - destruct (match_any prev [] OFFENSIVE_PATTERNS) eqn:Hm; [|discriminate].
    intros [= <-]. destruct (match_any_parts _ _ _ _ Hm) as (stem & Hin & Hat).
    exists stem, [], []. auto.
  - destruct (match_any prev (c :: text) OFFENSIVE_PATTERNS) eqn:Hm.
    + intros [= <-].
      destruct (match_any_parts _ _ _ _ Hm) as (stem & Hin & Hat).
      exists stem, [], (c :: text). auto.
    + intros Hs. destruct (IH _ _ Hs) as (stem & pre & rest & Hin & -> & Hat).
      exists stem, (c :: pre), rest. split; [exact Hin|].
      split; [reflexivity|]. cbn [rev].
      destruct (rev pre) as [|x xs]; exact Hat.
Qed.

(** X1.  The term the gate returns is a piece of the text as it stands
    there: the text is [pre ++ m ++ post], [m] begins with one of the listed
    stems (letter for letter under the case-insensitive comparison),
    goes on with word characters only, and has a word boundary before and
    after it. *)
Theorem is_offensive_match (text m : str) :
  is_offensive text = Some m ->
  exists stem pre literal word post,
    In stem OFFENSIVE_PATTERNS
    /\ text = pre ++ m ++ post
    /\ m = literal ++ word
    /\ Forall2 (fun p x => sre_ignorecase p x = true) stem literal
    /\ Forall (fun c => is_word c = true) word
    /\ at_boundary (hd_error (rev pre)) (hd_error (m ++ post)) = true
    /\ at_boundary (hd_error (rev m)) (hd_error post) = true.
Proof.
  unfold is_offensive. destruct (truthy text); cbn [negb]; [|discriminate].
  intros Hs. destruct (search_parts _ _ _ Hs) as (stem & pre & rest & Hin & -> & Hat).
  assert (Hstem : truthy stem = true).
  { pose proof patterns_nonempty as Hall. rewrite Forall_forall in Hall.
    now apply Hall. }
  destruct (match_at_parts _ _ _ _ Hstem Hat)
    as (literal & word & post & Hm & -> & Hci & Hword & Hstart & Hend).
  exists stem, pre, literal, word, post.
  repeat split; auto.
Qed.

End GateMatches.

Lemma is_offensive_match_witness :
  exists stem pre literal word post,
    In stem OFFENSIVE_PATTERNS
    /\ lit "esti un Idiotule mare" = pre ++ lit "Idiotule" ++ post
    /\ lit "Idiotule" = literal ++ word
    /\ Forall2 (fun p x => @sre_ignorecase LatinRuntime p x = true)
               stem literal
    /\ Forall (fun c => @is_word LatinRuntime c = true) word
    /\ @at_boundary LatinRuntime (hd_error (rev pre))
         (hd_error (lit "Idiotule" ++ post)) = true
    /\ @at_boundary LatinRuntime (hd_error (rev (lit "Idiotule")))
         (hd_error post) = true.
Proof.
  apply (@is_offensive_match LatinRuntime (lit "esti un Idiotule mare")
           (lit "Idiotule")).
  vm_compute. reflexivity.
Defined.

Section GateFlags.
Context {rt : PyRuntime}.

Lemma match_literal_complete (stem : str) :
  forall (literal consumed rest : str),
    Forall2 (fun p x => sre_ignorecase p x = true) stem literal ->
    match_literal stem consumed (literal ++ rest)
    = Some (rev literal ++ consumed, rest).
Proof.
  induction stem as [|p stem IH]; intros literal consumed rest Hall;
    inversion Hall as [|? x ? literal' Hp Hrest]; subst; simpl.
  - reflexivity.
  - rewrite Hp, (IH _ _ _ Hrest). now rewrite <- app_assoc.
Qed.

(** After a word character, [\w*\b] always finds its boundary. *)
Lemma word_star_b_after_word (text : str) :
  forall prev, is_word_at prev = true ->
               exists tail, word_star_b prev text = Some tail.
Proof.
  induction text as [|c text IH]; intros prev Hprev; cbn [word_star_b].
  - unfold at_boundary. rewrite Hprev. simpl. eauto.
  - assert (Hstop : is_word c = false ->
              at_boundary prev (Some c) = true).
    { intros Hc. unfold at_boundary. rewrite Hprev. simpl. now rewrite Hc. }
    destruct (is_word c) eqn:Hc.
    + destruct (IH (Some c) Hc) as [m ->]. eauto.
    + rewrite (Hstop eq_refl). eauto.
Qed.

Lemma match_any_complete (prev : option char) (text : str)
  (stems : list str) (stem m : str) :
  In stem stems -> match_at prev text stem = Some m ->
  exists m', match_any prev text stems = Some m'.
Proof.
  induction stems as [|s0 stems IH]; simpl; [intros []|].
  intros [-> | Hin] Hat.
  - rewrite Hat. eauto.
  - destruct (match_at prev text s0); eauto.
Qed.

Lemma search_complete (pre : str) :
  forall (prev : option char) (rest stem m : str),
    In stem OFFENSIVE_PATTERNS ->
    match_at (match rev pre with [] => prev | c :: _ => Some c end)
             rest stem = Some m ->
    exists m', search prev (pre ++ rest) = Some m'.
Proof.
  induction pre as [|c pre IH]; intros prev rest stem m Hin Hat;
    rewrite search_eq.
  - cbn [rev app] in *.
    destruct (match_any_complete _ _ _ _ _ Hin Hat) as [m' ->]. eauto.
  - cbn [app].
    destruct (match_any prev (c :: pre ++ rest) OFFENSIVE_PATTERNS);
      [eauto|].
    apply (IH (Some c) rest stem m Hin).
    cbn [rev] in Hat. destruct (rev pre) as [|x xs]; exact Hat.
Qed.

(** X2.  The gate misses no listed stem that stands at the start of a
    word: when the text holds, right after a word boundary, a run of
    characters that matches a stem letter for letter and ends in a word
    character, the text is flagged. *)
Theorem is_offensive_flags (pre literal post stem : str) :
  In stem OFFENSIVE_PATTERNS ->
  Forall2 (fun p x => sre_ignorecase p x = true) stem literal ->
  at_boundary (hd_error (rev pre)) (hd_error (literal ++ post)) = true ->
  is_word_at (hd_error (rev literal)) = true ->
  exists m, is_offensive (pre ++ literal ++ post) = Some m.
Proof.
  intros Hin Hci Hstart Hlast.
  assert (Htext : truthy (pre ++ literal ++ post) = true).
  { destruct literal; [discriminate Hlast|]. now destruct pre. }
  unfold is_offensive. rewrite Htext. cbn [negb].
  destruct (word_star_b_after_word post _ Hlast) as [tail Htail].
  apply (search_complete pre None (literal ++ post) stem
           (literal ++ tail) Hin).
  unfold match_at.
  replace (match rev pre with [] => None | c :: _ => Some c end)
    with (hd_error (rev pre)) by now destruct (rev pre).
  rewrite Hstart, (match_literal_complete _ _ _ _ Hci), app_nil_r, Htail.
  now rewrite rev_involutive.
Qed.

End GateFlags.

Lemma is_offensive_flags_witness :
  exists m,
    @is_offensive LatinRuntime (lit "ce BOU!" ) = Some m.
Proof.
  apply (@is_offensive_flags LatinRuntime (lit "ce ") (lit "BOU") (lit "!")
           (lit "bou")).
  - vm_compute. tauto.
  - vm_compute. repeat constructor.
  - vm_compute. reflexivity.
  - vm_compute. reflexivity.
Defined.

Section LookupFacts.
Context {rt : PyRuntime}.

(** [get_summary_by_title], step by step. *)
Lemma get_summary_run (title : str) (w : world) :
  get_summary_by_title title w =
  match _ensure_cache (noting (CallSummary title) w) with
  | (Raise e, w1) => (Raise e, w1)
  | (Ok (books, index), w1) =>
      (if negb (truthy title) || negb (truthy (strip title)) then Ok NO_TITLE
       else
         match dict_get (_norm title) index with
         | Some b => Ok (render_exact b)
         | None =>
             match candidates_of (_norm title) index with
             | [] => fuzzy_result title books index
             | best :: _ => Ok (render_candidate best)
             end
         end,
       w1)
  end.
Proof.
  unfold get_summary_by_title.
  unfold bind at 1. unfold trace at 1. fold (noting (CallSummary title) w).
  unfold bind at 1.
  destruct (_ensure_cache (noting (CallSummary title) w))
    as [[[books index]|e] w1]; [|reflexivity].
  destruct (negb (truthy title) || negb (truthy (strip title)));
    [reflexivity|].
  unfold fuzzy_result.
  destruct (dict_get (_norm title) index); [reflexivity|].
  destruct (candidates_of (_norm title) index); [|reflexivity].
  destruct (get_close_matches title (map b_title books) 1 (6 # 10));
    [reflexivity|].
  destruct (dict_get (_norm s) index); reflexivity.
Qed.

Lemma ensure_cache_run (w : world) :
  _ensure_cache w =
  match w_cache w with
  | Some c => (Ok c, w)
  | None =>
      match w_books w with
      | Missing =>
          (Raise (FileNotFoundError
                    (lit "books file not found: " ++ BOOKS_JSON)), w)
      | Undecodable msg => (Raise (ValueError msg), w)
      | NotAList =>
          (Raise (ValueError
                    (lit "book_summaries.json must contain a list of books")),
           w)
      | Books books =>
          (Ok (books, build_index books []),
           {| w_books := w_books w; w_collection := w_collection w;
              w_cache := Some (books, build_index books []);
              w_log := w_log w |})
      end
  end.
Proof.
  unfold _ensure_cache, _load_books. run.
  destruct (w_cache w); [reflexivity|].
  destruct w as [file col cache log]. cbn [w_books w_collection w_log].
  destruct file; reflexivity.
Qed.

Lemma render_exact_truthy (b : book) : truthy (render_exact b) = true.
Proof.
  unfold render_exact. destruct (truthy (strip (b_summary b))) eqn:E;
    [exact E | reflexivity].
Qed.

Lemma render_candidate_truthy (b : book) :
  truthy (render_candidate b) = true.
Proof.
  unfold render_candidate. destruct (truthy (strip (b_summary b))) eqn:E;
    [exact E | reflexivity].
Qed.

Lemma render_close_truthy (t : str) (b : book) :
  truthy (render_close t b) = true.
Proof.
  unfold render_close. destruct (truthy (strip (b_summary b))) eqn:E;
    [exact E | reflexivity].
Qed.

Lemma get_summary_truthy (title : str) (w w' : world) (s : str) :
  get_summary_by_title title w = (Ok s, w') -> truthy s = true.
Proof.
  rewrite get_summary_run.
  destruct (_ensure_cache (noting (CallSummary title) w))
    as [[[books index]|e] w1]; [|discriminate].
  intros [= H _].
  destruct (negb (truthy title) || negb (truthy (strip title)));
    [injection H as <-; reflexivity|].
  destruct (dict_get (_norm title) index);
    [injection H as <-; apply render_exact_truthy|].
  destruct (candidates_of (_norm title) index);
    [|injection H as <-; apply render_candidate_truthy].
  unfold fuzzy_result in H.
  destruct (get_close_matches title (map b_title books) 1 (6 # 10));
    [injection H as <-; reflexivity|].
  destruct (dict_get (_norm s0) index); [|discriminate].
  injection H as <-. apply render_close_truthy.
Qed.

(** X3.  Whenever [get_summary_by_title] returns, it returns a non-empty
    string: a summary that is not blank, or one of its messages. *)
Theorem get_summary_never_empty (title : str) (w w' : world) (s : str) :
  get_summary_by_title title w = (Ok s, w') -> truthy s = true.
Proof. exact (get_summary_truthy title w w' s). Qed.

(** X4.  A blank title (empty or whitespace only) is answered with the
    "no title received" message whenever the catalog is cached or loads,
    without any lookup; when the catalog is not cached and does not load,
    every title, blank or not, gets the load error raised. *)
Theorem get_summary_blank_title (title : str) (w : world) :
  (forall c,
      catalog_view w = Some c ->
      truthy (strip title) = false ->
      fst (get_summary_by_title title w) = Ok NO_TITLE)
  /\ (catalog_view w = None ->
      exists e, fst (get_summary_by_title title w) = Raise e).
Proof.
  split.
  - intros [books index] Hview Hblank.
    destruct (ensure_cache_view (noting (CallSummary title) w) Hview)
      as (w1 & Hcache & _).
    rewrite get_summary_run, Hcache, Hblank. cbn [negb fst].
    now rewrite orb_true_r.
  - unfold catalog_view. intros Hview.
    rewrite get_summary_run, ensure_cache_run. cbn [noting w_cache w_books].
    destruct (w_cache w); [discriminate|].
    destruct (w_books w); try discriminate; eexists; reflexivity.
Qed.

(** X5.  The catalog is read from disk at most once.  A lookup on a
    catalog that is cached or loads leaves it cached; and with the cache
    filled, no answer depends on the file any more: it may change or
    vanish. *)
Theorem catalog_read_once (title : str) (w : world)
  (c : list book * list (str * book)) :
  catalog_view w = Some c ->
  w_cache (snd (get_summary_by_title title w)) = Some c
  /\ (forall file title',
        get_summary_by_title title'
          (with_books file (snd (get_summary_by_title title w)))
        = (fst (get_summary_by_title title'
                  (snd (get_summary_by_title title w))),
           with_books file
             (snd (get_summary_by_title title'
                     (snd (get_summary_by_title title w)))))).
Proof.
  intros Hview.
  assert (Hcached : w_cache (snd (get_summary_by_title title w)) = Some c).
  { rewrite get_summary_run, ensure_cache_run.
    cbn [noting w_cache w_books].
    unfold catalog_view in Hview.
    destruct (w_cache w) as [c0|] eqn:Hc.
    - injection Hview as <-. destruct c0. exact Hc.
    - destruct (w_books w); try discriminate.
      injection Hview as <-. reflexivity. }
  split; [exact Hcached|].
  intros file title'.
  set (w1 := snd (get_summary_by_title title w)) in *.
  rewrite !get_summary_run, !ensure_cache_run.
  cbn [noting with_books w_cache w_books]. rewrite Hcached.
  destruct c as [books index]. reflexivity.
Qed.

End LookupFacts.

Lemma get_summary_never_empty_witness :
  truthy (lit "Bilbo Baggins leaves the Shire.") = true.
Proof.
  refine (@get_summary_never_empty LatinRuntime (lit "hobbit")
            (Sample.fresh [Sample.hobbit]) _ _ _).
  vm_compute. reflexivity.
Defined.

Lemma get_summary_blank_title_witness :
  fst (@get_summary_by_title LatinRuntime (lit "  ")
         (Sample.fresh [Sample.hobbit])) = Ok NO_TITLE
  /\ exists e,
       fst (@get_summary_by_title LatinRuntime (lit "Dune")
              Sample.no_catalog) = Raise e.
Proof.
  split.
  - refine (proj1 (@get_summary_blank_title LatinRuntime _ _) _ _ _).
    + vm_compute. reflexivity.
    + vm_compute. reflexivity.
  - apply (proj2 (@get_summary_blank_title LatinRuntime (lit "Dune")
                    Sample.no_catalog)).
    vm_compute. reflexivity.
Defined.

Lemma catalog_read_once_witness :
  fst (@get_summary_by_title LatinRuntime (lit "dune")
         (with_books Missing
            (snd (@get_summary_by_title LatinRuntime (lit "hobbit")
                    (Sample.fresh [Sample.hobbit; Sample.dune])))))
  = Ok (lit "Paul Atreides on Arrakis.").
Proof.
  rewrite (proj2 (@catalog_read_once LatinRuntime (lit "hobbit")
                    (Sample.fresh [Sample.hobbit; Sample.dune]) _ eq_refl)).
  vm_compute. reflexivity.
Defined.

Section LookupTotal.
Context {rt : PyRuntime}.

Lemma norm_title_eq (b : book) : norm_title b = _norm (b_title b).
Proof. unfold norm_title, _norm. now rewrite strip_idem. Qed.

(** A titled book of the catalog is found under its normalized title. *)
Lemma index_has_titled (books : list book) (b : book) :
  In b books -> has_title b = true ->
  exists b',
    dict_get (norm_title b) (build_index books []) = Some b'
    /\ In b' books /\ norm_title b' = norm_title b.
Proof.
  intros Hin Ht. rewrite build_index_get. cbn [dict_get].
  destruct (find (titled_as (norm_title b)) (rev books)) as [b'|] eqn:Hf.
  - apply find_some in Hf. destruct Hf as [Hin' Hb'].
    unfold titled_as in Hb'. apply andb_true_iff in Hb'.
    destruct Hb' as [_ Heq]. apply str_eqb_eq in Heq.
    exists b'. rewrite <- in_rev in Hin'. auto.
  - exfalso.
    assert (Hno : titled_as (norm_title b) b = false).
    { apply (find_none _ _ Hf b). now rewrite <- in_rev. }
    unfold titled_as in Hno. rewrite Ht, str_eqb_refl in Hno. discriminate.
Qed.

(** X6.  With a catalog in which every entry has a title, and a
    [get_close_matches] that answers with titles it was given,
    [get_summary_by_title] returns for every title: the [KeyError] of the
    fuzzy stage cannot happen. *)
Theorem get_summary_returns (title : str) (w : world) (books : list book) :
  catalog_view w = Some (books, build_index books []) ->
  Forall (fun b => has_title b = true) books ->
  (forall word possibilities n cutoff t,
      In t (get_close_matches word possibilities n cutoff) ->
      In t possibilities) ->
  exists s, fst (get_summary_by_title title w) = Ok s.
Proof.
  intros Hview Htitled Hclose.
  destruct (ensure_cache_view (noting (CallSummary title) w) Hview)
    as (w1 & Hcache & _).
  rewrite get_summary_run, Hcache. cbn [fst].
  destruct (negb (truthy title) || negb (truthy (strip title))); [eauto|].
  destruct (dict_get (_norm title) (build_index books [])); [eauto|].
  destruct (candidates_of (_norm title) (build_index books [])); [|eauto].
  unfold fuzzy_result.
  destruct (get_close_matches title (map b_title books) 1 (6 # 10))
    as [|close rest] eqn:Hc; [eauto|].
  assert (Hin : In close (map b_title books)).
  { apply (Hclose title _ 1%nat (6 # 10)). rewrite Hc. now left. }
  apply in_map_iff in Hin. destruct Hin as (b & <- & Hb).
  rewrite Forall_forall in Htitled.
  destruct (index_has_titled books b Hb (Htitled b Hb)) as (b' & Hget & _).
  rewrite <- norm_title_eq, Hget. eauto.
Qed.

Lemma distinct_index_get (books : list book) (b : book) :
  NoDup (map norm_title books) -> In b books ->
  dict_get (norm_title b) (map (fun b => (norm_title b, b)) books) = Some b.
Proof.
  induction books as [|b0 books IH]; [intros _ []|].
  cbn [map dict_get]. intros Hnd [-> | Hin].
  - now rewrite str_eqb_refl.
  - inversion Hnd as [|? ? Hnotin Hnd']; subst.
    destruct (str_eqb (norm_title b0) (norm_title b)) eqn:E.
    + apply str_eqb_eq in E. exfalso. apply Hnotin. rewrite E.
      now apply in_map.
    + now apply IH.
Qed.

(** X7.  Every title [list_titles] gives, unless blank, is one
    [get_summary_by_title] resolves at the exact stage: to an entry with
    the same normalized title, and to the very entry it came from when no
    two titled entries share a normalized title.  [list_titles] itself
    gives the titles of all entries in catalog order, blank ones too, and
    leaves the catalog cached. *)
Theorem listed_titles_resolve (w : world) (books : list book) :
  catalog_view w = Some (books, build_index books []) ->
  exists w1,
    list_titles w = (Ok (map b_title books), w1)
    /\ w_cache w1 = Some (books, build_index books [])
    /\ forall b,
         In b books -> has_title b = true ->
         (exists b',
             In b' books /\ norm_title b' = norm_title b
             /\ fst (get_summary_by_title (b_title b) w1)
                = Ok (render_exact b'))
         /\ (NoDup (map norm_title (filter has_title books)) ->
             fst (get_summary_by_title (b_title b) w1)
             = Ok (render_exact b)).
Proof.
  intros Hview.
  assert (Hrun : exists w1,
             _ensure_cache w = (Ok (books, build_index books []), w1)
             /\ w_cache w1 = Some (books, build_index books [])).
  { rewrite ensure_cache_run. unfold catalog_view in Hview.
    destruct (w_cache w) as [c0|] eqn:Hc.
    - injection Hview as ->. eauto.
    - destruct (w_books w); try discriminate.
      injection Hview as ->. eexists. split; reflexivity. }
  destruct Hrun as (w1 & Hcache & Hc1).
  exists w1. split; [|split; [exact Hc1|]].
  { unfold list_titles. run. now rewrite Hcache. }
  intros b Hb Ht.
  assert (Hanswer :
    fst (get_summary_by_title (b_title b) w1) =
    match dict_get (norm_title b) (build_index books []) with
    | Some b' => Ok (render_exact b')
    | None => fst (get_summary_by_title (b_title b) w1)
    end).
  { destruct (index_has_titled books b Hb Ht) as (b' & Hget & _).
    rewrite Hget, get_summary_run, ensure_cache_run.
    cbn [noting w_cache]. rewrite Hc1. cbn [fst].
    unfold has_title in Ht.
    assert (Hraw : truthy (b_title b) = true).
    { destruct (b_title b); [discriminate Ht | reflexivity]. }
    rewrite Hraw, Ht. cbn [negb orb].
    now rewrite <- norm_title_eq, Hget. }
  split.
  - destruct (index_has_titled books b Hb Ht) as (b' & Hget & Hin' & Hn).
    exists b'. rewrite Hanswer, Hget. auto.
  - intros Hnd. rewrite Hanswer, build_index_distinct by exact Hnd.
    cbn [app]. rewrite distinct_index_get; [reflexivity | exact Hnd|].
    apply filter_In. auto.
Qed.

End LookupTotal.

Lemma get_summary_returns_witness :
  exists s,
    fst (@get_summary_by_title LatinRuntime (lit "Fundatia")
           (Sample.fresh [Sample.hobbit; Sample.dune])) = Ok s.
Proof.
  apply (@get_summary_returns LatinRuntime (lit "Fundatia")
           (Sample.fresh [Sample.hobbit; Sample.dune])
           [Sample.hobbit; Sample.dune]).
  - reflexivity.
  - repeat constructor.
  - intros word possibilities n cutoff t Hin.
    cbn [get_close_matches LatinRuntime] in Hin.
    unfold Latin.get_close_matches in Hin.
    assert (Hf : In t (filter (str_eqb word) possibilities)).
    { rewrite <- (firstn_skipn n (filter (str_eqb word) possibilities)).
      apply in_or_app. now left. }
    apply filter_In in Hf. tauto.
Defined.

Lemma listed_titles_resolve_witness :
  exists w1,
    @list_titles LatinRuntime
      (Sample.fresh [Sample.untitled; Sample.dune_messiah; Sample.dune])
    = (Ok [lit "   "; lit "Dune Messiah"; lit "Dune"], w1)
    /\ fst (@get_summary_by_title LatinRuntime (lit "Dune") w1)
       = Ok (lit "Paul Atreides on Arrakis.").
Proof.
  destruct (@listed_titles_resolve LatinRuntime
              (Sample.fresh [Sample.untitled; Sample.dune_messiah; Sample.dune])
              [Sample.untitled; Sample.dune_messiah; Sample.dune] eq_refl)
    as (w1 & Hlist & _ & Hall).
  exists w1. split; [exact Hlist|].
  refine (proj2 (Hall Sample.dune _ _) _).
  - right. right. now left.
  - vm_compute. reflexivity.
  - vm_compute. repeat constructor; simpl; intuition discriminate.
Defined.

Section SlugShape.
Context {rt : PyRuntime}.

Lemma strip_with_nil_iff (p : char -> bool) (s : str) :
  strip_with p s = [] <-> Forall (fun c => p c = true) s.
Proof.
  unfold strip_with. split.
  - intros Hs. apply lstrip_nil_all.
    pose proof (lstrip_head p s) as Hhead.
    destruct (lstrip_with p s) as [|x a]; [reflexivity|]. exfalso.
    cbn [rev] in Hs.
    destruct (@lstrip_keeps_last p (rev a) x Hhead) as [u Hu].
    rewrite Hu, rev_app_distr in Hs. discriminate.
  - intros Hall. now rewrite (lstrip_all _ Hall).
Qed.

(** What [strip] leaves neither begins nor ends with a stripped
    character. *)
Lemma strip_with_ends (p : char -> bool) (s : str) :
  match strip_with p s with [] => True | c :: _ => p c = false end
  /\ match rev (strip_with p s) with [] => True | c :: _ => p c = false end.
Proof.
  unfold strip_with. split.
  - pose proof (lstrip_head p s) as Hhead.
    destruct (lstrip_with p s) as [|x a]; [exact I|].
    cbn [rev].
    destruct (@lstrip_keeps_last p (rev a) x Hhead) as [u Hu].
    rewrite Hu, rev_app_distr. exact Hhead.
  - rewrite rev_involutive. apply lstrip_head.
Qed.

Lemma char_eqb_neq (a b : char) : a <> b -> char_eqb a b = false.
Proof. intros Hne. now apply N.eqb_neq. Qed.

Lemma replace_dashes_snoc (c : char) (s : str) :
  c <> DASH ->
  forall skip : nat,
    (skip <= length s)%nat ->
    replace_go [DASH; DASH] [DASH] skip (s ++ [c])
    = replace_go [DASH; DASH] [DASH] skip s ++ [c].
Proof.
  intros Hc. induction s as [|x t IH]; intros skip Hskip.
  - assert (skip = 0%nat) as -> by (simpl in Hskip; lia).
    cbn [app replace_go startswith]. now rewrite andb_false_r.
  - cbn [app replace_go]. destruct skip as [|k].
    + assert (Hsame : startswith [DASH; DASH] (x :: t ++ [c])
                      = startswith [DASH; DASH] (x :: t)).
      { destruct t as [|y t']; cbn [app startswith]; [|reflexivity].
        rewrite (char_eqb_neq DASH c) by congruence.
        now rewrite !andb_false_r. }
      rewrite Hsame.
      destruct (startswith [DASH; DASH] (x :: t)) eqn:Hst.
      * cbn [length Nat.sub]. rewrite IH; [reflexivity|].
        destruct t as [|y t']; [|simpl; lia].
        cbn [startswith] in Hst. now rewrite andb_false_r in Hst.
      * rewrite IH; [reflexivity | lia].
    + apply IH. simpl in Hskip. lia.
Qed.

Lemma replace_dashes_nil (s : str) :
  replace [DASH; DASH] [DASH] s = [] -> s = [].
Proof.
  unfold replace. destruct s as [|x t]; [reflexivity|].
  cbn [replace_go]. destruct (startswith [DASH; DASH] (x :: t)); discriminate.
Qed.

(** X8.  A slug neither begins nor ends with a dash. *)
Theorem slug_no_outer_dash (title : str) :
  hd_error (_slugify title) <> Some DASH
  /\ hd_error (rev (_slugify title)) <> Some DASH.
Proof.
  unfold _slugify, strip_chars.
  set (p := fun c : char => existsb (char_eqb c) [DASH]).
  set (mapped := map (fun ch => if isalnum ch then ch else DASH)
                     (lower title)).
  assert (Hp : forall c, p c = false -> c <> DASH).
  { intros c Hpc ->. discriminate Hpc. }
  destruct (strip_with_ends p mapped) as [Hhead Hlast].
  split.
  - destruct (strip_with p mapped) as [|x t]; [intros [=]|].
    apply Hp in Hhead. unfold replace. cbn [replace_go].
    replace (startswith [DASH; DASH] (x :: t)) with false.
    + cbn [hd_error]. congruence.
    + cbn [startswith]. now rewrite (char_eqb_neq DASH x) by congruence.
  - destruct (rev (strip_with p mapped)) as [|x u] eqn:Hrev.
    + apply (f_equal (@rev char)) in Hrev. rewrite rev_involutive in Hrev.
      rewrite Hrev. intros [=].
    + apply Hp in Hlast.
      apply (f_equal (@rev char)) in Hrev. rewrite rev_involutive in Hrev.
      cbn [rev] in Hrev. rewrite Hrev. unfold replace.
      rewrite replace_dashes_snoc by (auto; simpl; lia).
      rewrite rev_app_distr. cbn. congruence.
Qed.

(** X9.  Where the dash is no alphanumeric character: the slug of a title
    is empty exactly when the lowercased title has no alphanumeric
    character at all. *)
Theorem slug_empty_iff (title : str) :
  isalnum DASH = false ->
  (_slugify title = [] <->
   Forall (fun c => isalnum c = false) (lower title)).
Proof.
  intros Hdash. unfold _slugify, strip_chars.
  set (p := fun c : char => existsb (char_eqb c) [DASH]).
  assert (Hp : forall c, p c = true <-> c = DASH).
  { intros c. unfold p. cbn. rewrite orb_false_r. apply N.eqb_eq. }
  split.
  - intros Hnil. apply replace_dashes_nil in Hnil.
    apply strip_with_nil_iff in Hnil.
    rewrite Forall_forall in Hnil. apply Forall_forall. intros c Hc.
    specialize (Hnil _ (in_map _ _ _ Hc)). apply Hp in Hnil.
    destruct (isalnum c) eqn:Hal; [|reflexivity]. congruence.
  - intros Hall.
    replace (strip_with p _) with (@nil char); [reflexivity|].
    symmetry. apply strip_with_nil_iff. apply Forall_forall.
    intros x Hx. apply in_map_iff in Hx. destruct Hx as (c & <- & Hc).
    rewrite Forall_forall in Hall. rewrite (Hall _ Hc). now apply Hp.
Qed.

End SlugShape.

Lemma slug_empty_iff_witness :
  @_slugify LatinRuntime (lit " -- ?! ") = [].
Proof.
  apply (@slug_empty_iff LatinRuntime (lit " -- ?! ")).
  - reflexivity.
  - vm_compute. repeat constructor.
Defined.

Section IngestionFacts.
Context {rt : PyRuntime} {sv : Services}.

Lemma embed_texts_trace (texts : list str) (w w' : world)
  (r : outcome (list vector)) :
  embed_texts texts w = (r, w') ->
  w_collection w' = w_collection w
  /\ w_log w' = match texts with
                | [] => w_log w
                | _ :: _ => CallEmbed texts :: w_log w
                end.
Proof.
  unfold embed_texts. destruct texts as [|t texts]; run;
    intros [= _ <-]; auto.
Qed.

Lemma col_add_trace (ids docs : list str) (embs : list vector)
  (metas : list meta) (w w' : world) (r : outcome unit) :
  col_add ids docs embs metas w = (r, w') ->
  w_log w' = CallAdd ids :: w_log w
  /\ exists extra, w_collection w' = w_collection w ++ extra.
Proof.
  unfold col_add. run.
  destruct (negb _);
    [intros [= _ <-]; split; [reflexivity | exists []; now rewrite app_nil_r]|].
  destruct (existsb (fun i => negb (truthy i)) ids);
    [intros [= _ <-]; split; [reflexivity | exists []; now rewrite app_nil_r]|].
  destruct (has_duplicates ids);
    [intros [= _ <-]; split; [reflexivity | exists []; now rewrite app_nil_r]|].
  intros [= _ <-]. split; [reflexivity|]. cbn [w_collection]. eauto.
Qed.

Lemma slice_length {A} (i : nat) (xs : list A) :
  length (slice i (i + BATCH) xs) = Nat.min BATCH (length xs - i).
Proof.
  unfold slice. rewrite length_firstn, length_skipn.
  replace (i + BATCH - i)%nat with BATCH by lia. reflexivity.
Qed.

(** What the batch loop does to the world: it notes calls, and appends
    documents.  Every embedding call it makes carries between one and 64
    texts. *)
Lemma add_batches_trace (starts : list nat) (rows : list (str * str * meta)) :
  forall (added : nat) (w w' : world) (r : outcome nat),
    add_batches starts rows added w = (r, w') ->
    exists new extra,
      w_log w' = new ++ w_log w
      /\ w_collection w' = w_collection w ++ extra
      /\ Forall (fun texts => (1 <= length texts <= BATCH)%nat)
                (embed_calls new).
Proof.
  induction starts as [|i starts IH]; intros added w w' r; cbn [add_batches].
  - unfold ret. intros [= _ <-]. exists [], []. rewrite app_nil_r.
    repeat split. constructor.
  - set (batch := slice i (i + BATCH) rows).
    assert (Hlen : (length (map (fun r => snd (fst r)) batch) <= BATCH)%nat).
    { rewrite length_map. unfold batch. rewrite slice_length. lia. }
    unfold bind at 1.
    destruct (embed_texts (map (fun r => snd (fst r)) batch) w)
      as [ro w1] eqn:He.
    destruct (embed_texts_trace _ _ _ _ He) as [Hc1 Hl1].
    assert (Hnew1 : exists new1,
               w_log w1 = new1 ++ w_log w
               /\ Forall (fun texts => (1 <= length texts <= BATCH)%nat)
                         (embed_calls new1)).
    { rewrite Hl1. destruct (map (fun r => snd (fst r)) batch) as [|t ts] eqn:E.
      - exists []. split; [reflexivity | constructor].
      - exists [CallEmbed (t :: ts)]. split; [reflexivity|].
        unfold embed_calls. cbn [flat_map app].
        constructor; [simpl in *; lia | constructor]. }
    destruct Hnew1 as (new1 & Hlog1 & Hall1).
    destruct ro as [vectors|e].
    + unfold bind at 1.
      destruct (col_add _ _ vectors _ w1) as [ra w2] eqn:Ha.
      destruct (col_add_trace _ _ _ _ _ _ _ Ha) as [Hl2 [extra2 Hc2]].
      destruct ra as [[]|e].
      * intros Hrest.
        destruct (IH _ _ _ _ Hrest) as (new3 & extra3 & Hl3 & Hc3 & Hall3).
        exists (new3 ++ CallAdd (map (fun r => fst (fst r)) batch) :: new1),
               (extra2 ++ extra3).
        rewrite Hl3, Hl2, Hlog1, Hc3, Hc2, Hc1, <- !app_assoc.
        repeat split. unfold embed_calls in *.
        rewrite flat_map_app. apply Forall_app. split; [exact Hall3|].
        exact Hall1.
      * intros [= _ <-].
        exists (CallAdd (map (fun r => fst (fst r)) batch) :: new1), extra2.
        rewrite Hl2, Hlog1, Hc2, Hc1. repeat split. exact Hall1.
    + intros [= _ <-]. exists new1, []. rewrite Hlog1, Hc1, app_nil_r.
      repeat split. exact Hall1.
Qed.

Lemma add_batches_count (rows : list (str * str * meta)) :
  forall (count i added n : nat) (w w' : world),
    add_batches (range_step i count BATCH) rows added w = (Ok n, w') ->
    n = (added + (Nat.min (length rows) (i + count * BATCH)
                  - Nat.min (length rows) i))%nat.
Proof.
  induction count as [|count IH]; intros i added n w w';
    cbn [range_step add_batches].
  - unfold ret. intros [= <- _]. lia.
  - unfold bind at 1.
    destruct (embed_texts _ w) as [[vectors|e] w1]; [|discriminate].
    unfold bind at 1.
    destruct (col_add _ _ vectors _ w1) as [[[]|e] w2]; [|discriminate].
    intros Hrest. apply IH in Hrest. rewrite length_map, slice_length in Hrest.
    unfold BATCH in *. lia.
Qed.

Lemma prepare_length (books : list book) :
  length (prepare books) = length (filter has_title books).
Proof.
  rewrite <- (length_map (fun r => fst (fst r))), prepare_ids.
  now rewrite length_map.
Qed.

Lemma delete_all (col : list idoc) :
  filter (fun d => negb (mem (d_id d) (map d_id col))) col = [].
Proof.
  assert (Hgen : forall ids,
             (forall d, In d col -> In (d_id d) ids) ->
             filter (fun d => negb (mem (d_id d) ids)) col = []).
  { intros ids. induction col as [|d col IH]; intros Hsub; [reflexivity|].
    cbn [filter].
    assert (Hm : mem (d_id d) ids = true).
    { apply mem_In. apply Hsub. now left. }
    rewrite Hm. cbn [negb]. apply IH. intros x Hx. apply Hsub. now right. }
  apply Hgen. intros d Hd. now apply in_map.
Qed.

(** [index_books] up to its batch loop. *)
Lemma index_books_run (force : bool) (w : world) (entries : list book) :
  w_books w = Books entries ->
  index_books force w =
  if negb (Nat.eqb (length (w_collection w)) 0) && negb force
  then (Ok (0%nat, length (w_collection w)), w)
  else
    let w0 :=
      if force && negb (Nat.eqb (length (w_collection w)) 0)
      then {| w_books := w_books w; w_collection := [];
              w_cache := w_cache w;
              w_log := CallDelete (map d_id (w_collection w)) :: w_log w |}
      else w in
    match add_batches (range0 (length (prepare entries)) BATCH)
            (prepare entries) 0 w0 with
    | (Ok added, w') =>
        (Ok (added, (length (prepare entries) - added)%nat), w')
    | (Raise e, w') => (Raise e, w')
    end.
Proof.
  intros Hbooks. destruct w as [file col cache log].
  cbn [w_books] in Hbooks. subst file.
  unfold index_books, _load_books, col_count, col_get_ids, col_delete. run.
  cbn [w_collection w_books w_cache w_log].
  destruct (negb (Nat.eqb (length col) 0) && negb force); [reflexivity|].
  destruct (force && negb (Nat.eqb (length col) 0)).
  - rewrite delete_all. cbv zeta.
    destruct (add_batches _ (prepare entries) 0 _) as [[added|e] w'];
      reflexivity.
  - cbv zeta.
    destruct (add_batches _ (prepare entries) 0 _) as [[added|e] w'];
      reflexivity.
Qed.

Lemma range0_covers (n : nat) :
  (n <= (n + BATCH - 1) / BATCH * BATCH)%nat.
Proof.
  unfold BATCH.
  pose proof (Nat.mul_succ_div_gt (n + 64 - 1) 64) as H. lia.
Qed.

(** X10.  When the catalog loads, a forced rebuild leaves no stale
    document: whatever [index_books(force=True)] leaves in the index, also
    when it raises half way, was made from a titled entry of the catalog as
    it is now.  When the catalog does not load, the call raises before it
    deletes anything, and the world, stale documents included, is as it
    was. *)
Theorem forced_rebuild_no_stale (w : world) :
  (forall (w' : world) (entries : list book) (r : outcome (nat * nat))
          (d : idoc),
      w_books w = Books entries ->
      index_books true w = (r, w') ->
      In d (w_collection w') ->
      indexed_from entries d)
  /\ ((forall entries, w_books w <> Books entries) ->
      exists e, index_books true w = (Raise e, w)).
Proof.
  split.
  2:{ intros Hno. unfold index_books, _load_books. run.
      destruct (w_books w) as [| msg | | entries] eqn:Hb;
        try (eexists; reflexivity).
      now destruct (Hno entries). }
  intros w' entries r d.
  intros Hbooks. rewrite (index_books_run true w entries Hbooks).
  cbn [negb andb]. rewrite andb_false_r. cbv zeta.
  set (w0 := if negb (Nat.eqb (length (w_collection w)) 0) then _ else w).
  assert (Hempty : w_collection w0 = []).
  { subst w0. destruct (w_collection w) eqn:E; cbn; [exact E | reflexivity]. }
  destruct (add_batches _ (prepare entries) 0 w0) as [ro w2] eqn:Ha.
  intros Hr Hin.
  assert (Hw : w' = w2) by (destruct ro; congruence). subst w2.
  eapply add_batches_In in Hin; [|exact Ha].
  destruct Hin as [Hold | (row & Hrow & Hid & Hmeta)].
  - rewrite Hempty in Hold. destruct Hold.
  - apply prepare_In in Hrow.
    destruct Hrow as (b & Hb & Ht & Hslug & Htitle).
    exists b. rewrite Hid, Hmeta. auto.
Qed.

(** X11.  When [index_books] does its work (a forced rebuild, or an empty
    index) and returns, it returns [(n, 0)], [n] the number of catalog
    entries with a title: the second number is [0] whatever was or was not
    stored. *)
Theorem index_books_counts (force : bool) (w w' : world)
  (entries : list book) (added skipped : nat) :
  w_books w = Books entries ->
  force = true \/ w_collection w = [] ->
  index_books force w = (Ok (added, skipped), w') ->
  added = length (filter has_title entries) /\ skipped = 0%nat.
Proof.
  intros Hbooks Hwork. rewrite (index_books_run force w entries Hbooks).
  replace (negb (Nat.eqb (length (w_collection w)) 0) && negb force)
    with false
    by (destruct Hwork as [-> | ->]; [now rewrite andb_false_r | reflexivity]).
  cbv zeta.
  destruct (add_batches _ (prepare entries) 0 _) as [[n|e] w2] eqn:Ha;
    [|discriminate].
  intros [= <- <- _]. unfold range0 in Ha.
  apply add_batches_count in Ha.
  pose proof (range0_covers (length (prepare entries))) as Hcover.
  rewrite <- prepare_length. lia.
Qed.

(** X12.  Every embedding call [index_books] makes carries at least one
    text and at most 64. *)
Theorem index_books_batches (force : bool) (w w' : world)
  (r : outcome (nat * nat)) :
  index_books force w = (r, w') ->
  exists new,
    w_log w' = new ++ w_log w
    /\ Forall (fun texts => (1 <= length texts <= 64)%nat) (embed_calls new).
Proof.
  destruct (w_books w) as [| msg | | entries] eqn:Hbooks.
  1-3: unfold index_books, _load_books; run; rewrite Hbooks;
       intros [= _ <-]; exists []; split; [reflexivity | constructor].
  rewrite (index_books_run force w entries Hbooks).
  destruct (negb (Nat.eqb (length (w_collection w)) 0) && negb force).
  { intros [= _ <-]. exists []. split; [reflexivity | constructor]. }
  cbv zeta.
  set (w0 := if force && negb (Nat.eqb (length (w_collection w)) 0)
             then _ else w).
  assert (Hw0 : exists pre, w_log w0 = pre ++ w_log w /\ embed_calls pre = []).
  { subst w0. destruct (force && negb (Nat.eqb (length (w_collection w)) 0)).
    - exists [CallDelete (map d_id (w_collection w))]. split; reflexivity.
    - exists []. split; reflexivity. }
  destruct Hw0 as (pre & Hpre & Hnone).
  destruct (add_batches _ (prepare entries) 0 w0) as [ro w2] eqn:Ha.
  destruct (add_batches_trace _ _ _ _ _ _ Ha) as (new & extra & Hl & _ & Hall).
  intros Hr. assert (Hw : w' = w2) by (destruct ro; congruence). subst w2.
  exists (new ++ pre). rewrite Hl, Hpre, app_assoc. split; [reflexivity|].
  unfold embed_calls in *. rewrite flat_map_app, Hnone, app_nil_r.
  exact Hall.
Qed.

(** Without [force], [index_books] removes and reorders nothing. *)
Lemma index_books_appends (w w' : world) (r : outcome (nat * nat)) :
  index_books false w = (r, w') ->
  exists extra, w_collection w' = w_collection w ++ extra.
Proof.
  destruct (w_books w) as [| msg | | entries] eqn:Hbooks.
  1-3: unfold index_books, _load_books; run; rewrite Hbooks;
       intros [= _ <-]; exists []; now rewrite app_nil_r.
  rewrite (index_books_run false w entries Hbooks).
  destruct (negb (Nat.eqb (length (w_collection w)) 0) && negb false).
  { intros [= _ <-]. exists []. now rewrite app_nil_r. }
  cbn [andb]. cbv zeta.
  destruct (add_batches _ (prepare entries) 0 w) as [ro w2] eqn:Ha.
  destruct (add_batches_trace _ _ _ _ _ _ Ha) as (new & extra & _ & Hc & _).
  intros Hr. assert (Hw : w' = w2) by (destruct ro; congruence). subst w2.
  eauto.
Qed.

End IngestionFacts.

Lemma forced_rebuild_no_stale_witness :
  let sv := Scripted.services (lit "nope") [] None in
  let w := {| w_books := Books [Sample.dune];
              w_collection := [Sample.hobbit_doc];
              w_cache := None; w_log := [] |} in
  map d_id (w_collection (snd (@index_books LatinRuntime sv true w)))
  = [lit "dune"]
  /\ @indexed_from LatinRuntime [Sample.dune]
       (nth 0 (w_collection (snd (@index_books LatinRuntime sv true w)))
            Sample.hobbit_doc).
Proof.
  intros sv w. split; [vm_compute; reflexivity|].
  apply (proj1 (@forced_rebuild_no_stale LatinRuntime sv w)
           (snd (@index_books LatinRuntime sv true w)) [Sample.dune]
           (fst (@index_books LatinRuntime sv true w))).
  - reflexivity.
  - apply surjective_pairing.
  - vm_compute. left. reflexivity.
Defined.

Lemma index_books_counts_witness :
  70%nat = length (filter (@has_title LatinRuntime)
                     (Sample.untitled :: shelf 70))
  /\ 0%nat = 0%nat.
Proof.
  apply (@index_books_counts LatinRuntime
           (Scripted.services (lit "nope") [] None) false
           (Sample.fresh (Sample.untitled :: shelf 70))
           (snd (@index_books LatinRuntime
                   (Scripted.services (lit "nope") [] None) false
                   (Sample.fresh (Sample.untitled :: shelf 70))))
           (Sample.untitled :: shelf 70) 70 0).
  - reflexivity.
  - right. reflexivity.
  - vm_compute. reflexivity.
Defined.

Lemma index_books_batches_witness :
  let sv := Scripted.services (lit "nope") [] None in
  let w := Sample.fresh (shelf 70) in
  map (@length str)
      (embed_calls (w_log (snd (@index_books LatinRuntime sv false w))))
  = [6%nat; 64%nat]
  /\ exists new,
       w_log (snd (@index_books LatinRuntime sv false w)) = new ++ w_log w
       /\ Forall (fun texts => (1 <= length texts <= 64)%nat)
                 (embed_calls new).
Proof.
  intros sv w. split; [vm_compute; reflexivity|].
  apply (@index_books_batches LatinRuntime sv false w
           (snd (@index_books LatinRuntime sv false w))
           (fst (@index_books LatinRuntime sv false w))).
  apply surjective_pairing.
Defined.

Section RetrieveFacts.
Context {rt : PyRuntime} {sv : Services}.

Lemma items_from_nth (res : query_result) (ids : list str) :
  forall (offset i : nat) (id : str),
    nth_error ids i = Some id ->
    nth_error (items_from res offset ids) i
    = Some (item_at res (offset + i) id).
Proof.
  induction ids as [|id0 ids IH]; intros offset i id.
  - destruct i; discriminate.
  - destruct i as [|i]; cbn [nth_error items_from].
    + intros [= ->]. now rewrite Nat.add_0_r.
    + intros Hnth. rewrite (IH (S offset) i id Hnth).
      now rewrite Nat.add_succ_r.
Qed.

Lemma items_from_ids (res : query_result) (ids : list str) :
  forall offset, map i_id (items_from res offset ids) = ids.
Proof.
  induction ids as [|id ids IH]; intros offset; [reflexivity|].
  cbn [items_from map]. now rewrite IH.
Qed.

(** X13.  On a query that is not blank, with the embedding and the search
    answering: [retrieve] makes one embedding call, of the trimmed query
    alone, asks the index for [max(1, k)] neighbours of the first vector,
    and returns one item per id of the answer, in its order.  The item at
    a position takes the distance and the document of that position
    ([None] where the list is too short), and the title, summary, authors
    and tags of the metadata at that position; where there is no metadata
    there, or it is no dict, the title and the summary are [None] and the
    authors and the tags are the empty list. *)
Theorem retrieve_items (query : str) (k : Z) (w : world) (v : vector)
  (vs : list vector) (res : query_result) :
  truthy (strip query) = true ->
  embeddings_create [strip query] = Ok (v :: vs) ->
  chroma_query (w_collection w) v (Z.max 1 k) = Ok res ->
  exists items,
    retrieve (Some query) k w
    = (Ok items,
       noting (CallQuery (Z.max 1 k))
         (noting (CallEmbed [strip query])
            (noting (CallRetrieve query k) w)))
    /\ map i_id items = q_ids res
    /\ forall i id,
         nth_error (q_ids res) i = Some id ->
         exists item,
           nth_error items i = Some item
           /\ i_id item = id
           /\ i_distance item = nth_error (q_distances res) i
           /\ i_document item = nth_error (q_documents res) i
           /\ match nth_error (q_metas res) i with
              | Some (Some m) =>
                  i_title item = m_title m
                  /\ i_summary item = m_summary m
                  /\ i_authors item = match m_authors m with
                                      | Some s => Stored s
                                      | None => EmptyList
                                      end
                  /\ i_tags item = match m_tags m with
                                   | Some s => Stored s
                                   | None => EmptyList
                                   end
              | _ =>
                  i_title item = None /\ i_summary item = None
                  /\ i_authors item = EmptyList /\ i_tags item = EmptyList
              end.
Proof.
  intros Hq Hemb Hquery.
  exists (items_from res 0 (q_ids res)). split; [|split].
  - unfold retrieve, embed_texts. cbn [or_empty]. rewrite Hq. cbn [negb].
    run. rewrite Hemb. cbn [w_collection]. rewrite Hquery. reflexivity.
  - apply items_from_ids.
  - intros i id Hnth. exists (item_at res i id).
    rewrite (items_from_nth res _ 0 i id Hnth). cbn [Nat.add].
    split; [reflexivity|]. split; [reflexivity|]. split; [reflexivity|].
    split; [reflexivity|]. unfold item_at.
    destruct (nth_error (q_metas res) i) as [[m|]|]; repeat split.
Qed.

End RetrieveFacts.

Lemma retrieve_items_witness :
  exists items,
    fst (@retrieve LatinRuntime (Scripted.services (lit "nope") [] None)
           (Some (lit " fantasy ")) 0
           {| w_books := Books [Sample.hobbit];
              w_collection := [Sample.hobbit_doc];
              w_cache := None; w_log := [] |})
    = Ok items
    /\ map i_id items = [lit "the-hobbit"].
Proof.
  destruct (@retrieve_items LatinRuntime
              (Scripted.services (lit "nope") [] None)
              (lit " fantasy ") 0
              {| w_books := Books [Sample.hobbit];
                 w_collection := [Sample.hobbit_doc];
                 w_cache := None; w_log := [] |}
              [inject_Z 7] []
              {| q_ids := [lit "the-hobbit"];
                 q_distances := [0%Q];
                 q_documents := [lit "Title: The Hobbit"];
                 q_metas := [Some (d_meta Sample.hobbit_doc)] |})
    as (items & Hrun & Hids & _).
  - vm_compute. reflexivity.
  - vm_compute. reflexivity.
  - vm_compute. reflexivity.
  - exists items. rewrite Hrun. auto.
Defined.

Section RespondFacts.
Context {rt : PyRuntime} {sv : Services}.

(** X14.  A message that is empty or all whitespace is refused before
    anything else happens: [respond] raises the 400 error, no stream is
    opened, and the world is as it was. *)
Theorem respond_blank_message (payload_message : str) (w : world) :
  Forall (fun c => isspace c = true) payload_message ->
  serve payload_message w
  = (NoStream (HTTPException 400 (lit "Field 'message' is required")), w).
Proof.
  intros Hblank. apply strip_nil_iff in Hblank.
  unfold serve, respond. rewrite Hblank. reflexivity.
Qed.




(** X17.  When the summary lookup raises inside the stream (the catalog
    does not load), the provider stream is never opened: the stream is the
    one Error frame with that failure, and no streaming call is noted. *)
Theorem lookup_failure_single_error (payload_message : str)
  (w w1 w2 w3 : world) (items : list match_item) (title : str) (e : exn) :
  truthy (strip payload_message) = true ->
  flagged (is_offensive (strip payload_message)) = false ->
  retrieve (Some (strip payload_message)) 3 w = (Ok items, w1) ->
  _select_title (strip payload_message) items w1 = (Ok title, w2) ->
  truthy title = true ->
  get_summary_by_title title w2 = (Raise e, w3) ->
  serve payload_message w = (Streamed [error_frame e] None, w3).
Proof.
  intros Hmsg Hflag Hret Hsel Htitle Hsum.
  unfold serve, respond. rewrite Hmsg, Hflag. cbn [negb].
  unfold bind at 1. rewrite Hret. unfold bind at 1. rewrite Hsel.
  unfold ret at 1. unfold event_generator, gcatch.
  rewrite stream_final_run, Htitle, Hsum. reflexivity.
Qed.

(** X18.  When the reply of the completion capability decodes to a title
    of the candidate list, the selector returns that title, first
    candidate or not, after exactly one completion call. *)
Theorem select_title_chosen (message : str) (items : list match_item)
  (w : world) (output_text : option str) (chosen : str) :
  candidate_titles items <> [] ->
  let user :=
    lit "Cerere: " ++ message ++ [NL] ++ lit "Titluri candidate: "
    ++ join (lit "; ") (candidate_titles items) in
  responses_create SELECT_SYSTEM user = Ok output_text ->
  decode_choice (strip (or_empty output_text)) = Some chosen ->
  In chosen (candidate_titles items) ->
  _select_title message items w
  = (Ok chosen,
     noting (CallComplete SELECT_SYSTEM user)
            (noting (CallSelectTitle message) w)).
Proof.
  intros Hne user Hreply Hdec Hin. apply mem_In in Hin.
  unfold _select_title. fold user.
  destruct (candidate_titles items) as [|t ts] eqn:Hcand; [congruence|].
  run. rewrite Hreply. cbv beta iota. rewrite Hdec, Hin. reflexivity.
Qed.

End RespondFacts.

Lemma respond_blank_message_witness :
  @serve LatinRuntime Scripted.embedding_down (lit "   ")
    (Sample.fresh [Sample.hobbit])
  = (NoStream (HTTPException 400 (lit "Field 'message' is required")),
     Sample.fresh [Sample.hobbit]).
Proof.
  apply (@respond_blank_message LatinRuntime Scripted.embedding_down).
  repeat constructor.
Defined.



Lemma lookup_failure_single_error_witness :
  let sv := Scripted.services (lit "nope") [OutputTextDelta (lit "Dune.")]
              None in
  fst (@serve LatinRuntime sv (lit "vreau o carte fantasy")
         Sample.no_catalog)
  = Streamed
      [ @error_frame LatinRuntime
          (FileNotFoundError (lit "books file not found: " ++ BOOKS_JSON)) ]
      None.
Proof.
  intros sv.
  refine (f_equal fst
    (@lookup_failure_single_error LatinRuntime sv
       (lit "vreau o carte fantasy") Sample.no_catalog _ _ _ _
       (lit "The Hobbit") _ _ _ _ _ _ _)).
  - vm_compute. reflexivity.
  - vm_compute. reflexivity.
  - vm_compute. reflexivity.
  - vm_compute. reflexivity.
  - reflexivity.
  - vm_compute. reflexivity.
Defined.

Lemma select_title_chosen_witness :
  let reply := lit "{" ++ [DQUOTE] ++ lit "title" ++ [DQUOTE] ++ lit ": "
               ++ [DQUOTE] ++ lit "The Hobbit" ++ [DQUOTE] ++ lit "}" in
  fst (@_select_title LatinRuntime (Scripted.services reply [] None)
         (lit "vreau o carte")
         [Sample.titled (lit "Dune"); Sample.titled (lit "The Hobbit")]
         (Sample.fresh []))
  = Ok (lit "The Hobbit").
Proof.
  intros reply.
  refine (f_equal fst
    (@select_title_chosen LatinRuntime (Scripted.services reply [] None)
       (lit "vreau o carte")
       [Sample.titled (lit "Dune"); Sample.titled (lit "The Hobbit")]
       (Sample.fresh []) (Some reply) (lit "The Hobbit") _ _ _ _)).
  - vm_compute. discriminate.
  - reflexivity.
  - vm_compute. reflexivity.
  - vm_compute. right. left. reflexivity.
Defined.

Section ConfigFacts.
Context {rt : PyRuntime} {sv : Services} {er : PyValues}.

Lemma split_go_pieces (sep : char) (s : str) :
  forall (cur piece : str) (c : char),
    In piece (split_go sep cur s) -> In c piece ->
    (In c cur \/ In c s) /\ (~ In sep cur -> c <> sep).
Proof.
  induction s as [|x t IH]; intros cur piece c; cbn [split_go].
  - intros [<- | []] Hc. rewrite <- in_rev in Hc. split; [auto|].
    intros Hcur ->. contradiction.
  - destruct (char_eqb x sep) eqn:Hx.
    + intros [<- | Hin] Hc.
      * rewrite <- in_rev in Hc. split; [auto|]. intros Hcur ->. contradiction.
      * destruct (IH [] piece c Hin Hc) as [[[] | Ht] Hsep].
        split; [right; now right | intros _; now apply Hsep].
    + intros Hin Hc. destruct (IH (x :: cur) piece c Hin Hc) as [Hor Hsep].
      split.
      * destruct Hor as [[<- | Hcur] | Ht]; [right; now left | auto |
                                             right; now right].
      * intros Hcur. apply Hsep. intros [<- | Hincur]; [|contradiction].
        unfold char_eqb in Hx. now rewrite N.eqb_refl in Hx.
Qed.

(** X19.  [_parse_cors]: with [CORS_ORIGINS] unset or empty the two local
    origins are allowed.  Otherwise every origin it gives is non-empty,
    has no whitespace around it and no comma in it, and is made of
    characters of the setting; and a setting made of commas and whitespace
    only gives no origin at all (not the two defaults). *)
Theorem parse_cors_origins (raw : str) :
  _parse_cors []
  = [lit "http://localhost:5173"; lit "http://127.0.0.1:5173"]
  /\ (truthy raw = true ->
      (forall o,
          In o (_parse_cors raw) ->
          o <> [] /\ strip o = o /\ ~ In COMMA o
          /\ forall c, In c o -> In c raw)
      /\ (Forall (fun c => isspace c = true \/ c = COMMA) raw ->
          _parse_cors raw = [])).
Proof.
  split; [reflexivity|]. intros Hraw. unfold _parse_cors. rewrite Hraw.
  cbn [negb]. split.
  - intros o Ho. apply filter_In in Ho. destruct Ho as [Ho Hne].
    apply in_map_iff in Ho. destruct Ho as (piece & <- & Hpiece).
    split; [now apply truthy_true_cons|].
    split; [apply strip_idem|].
    assert (Hchars : forall c, In c (strip piece) ->
                               In c raw /\ c <> COMMA).
    { intros c Hc. apply strip_with_In in Hc.
      destruct (split_go_pieces COMMA raw [] piece c Hpiece Hc)
        as [[[] | Hin] Hsep].
      split; [exact Hin | apply Hsep; intros []]. }
    split.
    + intros Hcomma. now destruct (Hchars _ Hcomma).
    + intros c Hc. now destruct (Hchars _ Hc).
  - intros Hall. rewrite Forall_forall in Hall.
    assert (Hnone : forall pieces,
               (forall piece, In piece pieces -> strip piece = []) ->
               filter truthy (map strip pieces) = []).
    { induction pieces as [|p0 pieces IH]; intros Hp; [reflexivity|].
      cbn [map filter]. rewrite (Hp p0 (or_introl eq_refl)). cbn [truthy].
      apply IH. intros piece Hin. apply Hp. now right. }
    apply Hnone. intros piece Hpiece. apply strip_nil_iff.
    apply Forall_forall. intros c Hc.
    destruct (split_go_pieces COMMA raw [] piece c Hpiece Hc)
      as [[[] | Hin] Hsep].
    destruct (Hall c Hin) as [Hs | ->]; [exact Hs|].
    exfalso. apply Hsep; [intros [] | reflexivity].
Qed.

(** X20.  Startup never stops the service.  With a catalog that loads and
    an index that holds documents, [_on_startup] reports [added=0] and the
    number of stored documents and changes nothing; with the catalog
    source missing it reports the failure as a warning and goes on, the
    index left as it was, empty or not. *)
Theorem startup_report (w : world) :
  (forall entries,
      w_books w = Books entries ->
      w_collection w <> [] ->
      _on_startup w
      = (lit "[startup] Chroma ready. added=0, skipped="
         ++ str_of_nat (length (w_collection w)), w))
  /\ (w_books w = Missing ->
      _on_startup w
      = (lit "[startup] init_store warning: "
         ++ exn_str (FileNotFoundError
                       (lit "books file not found: " ++ BOOKS_JSON)), w)).
Proof.
  split.
  - intros entries Hbooks Hcol. unfold _on_startup, init_store.
    rewrite (index_books_populated w Hbooks Hcol). reflexivity.
  - intros Hbooks. unfold _on_startup, init_store, index_books, _load_books.
    run. rewrite Hbooks. reflexivity.
Qed.

Lemma run_tool_returns (name args : json) (w : world) :
  exists s w', run_tool name args w = (Ok s, w') /\ truthy s = true.
Proof.
  unfold run_tool. destruct (is_summary_tool name).
  - destruct args as [| | | | |fields];
      try (eexists; eexists; split; reflexivity).
    destruct (get_summary_by_title
                match obj_get (lit "title") fields with
                | Some v => str_of v
                | None => []
                end w) as [[s|e] w'] eqn:Hs.
    + exists s, w'. split; [reflexivity|].
      exact (get_summary_truthy _ _ _ _ Hs).
    + eexists. eexists. split; reflexivity.
  - eexists. eexists. split; reflexivity.
Qed.

Lemma tool_output_str_returns (name raw_args : json) (w : world) :
  exists s w',
    tool_output_str name raw_args w = (Ok s, w') /\ truthy s = true.
Proof.
  unfold tool_output_str.
  destruct raw_args as [| | |raw| |fields]; try apply run_tool_returns.
  destruct (truthy (strip raw)); [|apply run_tool_returns].
  destruct (json_loads raw) as [args|]; [apply run_tool_returns|].
  eexists. eexists. split; reflexivity.
Qed.

(** A well-shaped call is taken apart without an error, and nothing
    else is. *)
Lemma call_parts_returns (call : json) (w : world) :
  call_well_shaped call = true ->
  exists call_id name raw_args,
    call_parts call w = (Ok (call_id, name, raw_args), w)
    /\ call_id = match call with
                 | JObj fields => found_or_none (obj_get (lit "id") fields)
                 | _ => JNull
                 end.
Proof.
  destruct call as [| | | | |fields]; try discriminate.
  unfold call_well_shaped, call_parts. cbn [py_get]. run.
  destruct (obj_get (lit "function") fields) as [fn|].
  - destruct fn as [|b|literal|text|items|ff]; cbn [found_or_none];
      unfold or_json; intros Hfn.
    + cbn [json_truthy py_get]. run. eauto.
    + apply negb_true_iff in Hfn. rewrite Hfn. cbn [py_get]. run. eauto.
    + apply negb_true_iff in Hfn. rewrite Hfn. cbn [py_get]. run. eauto.
    + apply negb_true_iff in Hfn. rewrite Hfn. cbn [py_get]. run. eauto.
    + apply negb_true_iff in Hfn. rewrite Hfn. cbn [py_get]. run. eauto.
    + destruct (json_truthy (JObj ff)); cbn [py_get]; run; eauto.
  - intros _. cbn [found_or_none]. unfold or_json. cbn [json_truthy py_get]. run.
    eauto.
Qed.

Lemma call_parts_raises (call : json) (w : world) :
  call_well_shaped call = false ->
  exists message, call_parts call w = (Raise (AttributeError message), w).
Proof.
  unfold call_parts.
  destruct call as [| | | | |fields];
    try (intros _; cbn [py_get]; run; solve [eauto]).
  unfold call_well_shaped. cbn [py_get]. run.
  destruct (obj_get (lit "function") fields) as [fn|]; [|discriminate].
  destruct fn as [|b|literal|text|items|ff];
    cbn [found_or_none]; unfold or_json; intros Hfn;
    try (cbn in Hfn; discriminate Hfn);
    apply negb_false_iff in Hfn; rewrite Hfn; cbn [py_get]; run; eauto.
Qed.

Lemma tool_outputs_loop_returns (tool_calls : list json) :
  forallb call_well_shaped tool_calls = true ->
  forall w,
    exists outputs w',
      tool_outputs_loop tool_calls w = (Ok outputs, w')
      /\ map tool_call_id outputs = answered_ids tool_calls
      /\ Forall (fun o => truthy (output o) = true) outputs.
Proof.
  induction tool_calls as [|call rest IH]; intros Hshape w.
  - exists [], w. repeat split. constructor.
  - cbn [forallb] in Hshape. apply andb_true_iff in Hshape.
    destruct Hshape as [Hcall Hrest].
    destruct (call_parts_returns call w Hcall)
      as (call_id & name & raw_args & Hparts & Hid).
    cbn [tool_outputs_loop]. unfold bind at 1. rewrite Hparts.
    unfold bind at 1.
    destruct (tool_output_str_returns name raw_args w) as (s & w1 & -> & Hs).
    unfold bind at 1.
    destruct (IH Hrest w1) as (outputs & w2 & -> & Hids & Hall).
    unfold ret, answered_ids in *. cbn [map filter]. rewrite <- Hid.
    destruct (json_truthy call_id).
    + eexists. eexists. split; [reflexivity|]. cbn [map tool_call_id].
      split; [now rewrite Hids | constructor; auto].
    + eexists. eexists. split; [reflexivity|]. auto.
Qed.

Lemma tool_outputs_loop_raises (tool_calls : list json) :
  forallb call_well_shaped tool_calls = false ->
  forall w,
    exists message w',
      tool_outputs_loop tool_calls w = (Raise (AttributeError message), w').
Proof.
  induction tool_calls as [|call rest IH]; intros Hshape w;
    [discriminate|].
  cbn [forallb] in Hshape. cbn [tool_outputs_loop]. unfold bind at 1.
  destruct (call_well_shaped call) eqn:Hcall.
  - destruct (call_parts_returns call w Hcall)
      as (call_id & name & raw_args & Hparts & _).
    rewrite Hparts. unfold bind at 1.
    destruct (tool_output_str_returns name raw_args w) as (s & w1 & -> & _).
    unfold bind at 1.
    destruct (IH Hshape w1) as (message & w2 & ->). eauto.
  - destruct (call_parts_raises call w Hcall) as (message & ->). eauto.
Qed.

(** A dict or a string that is not empty is run through, and its first
    element is a string, which is no call. *)
Lemma first_seen_head (k : str) (keys : list str) :
  first_seen [] (k :: keys) = k :: first_seen [k] keys.
Proof. reflexivity. Qed.

(** X21.  [build_tool_outputs] returns exactly on the actions it is
    written for.  A falsy action ([None], an empty dict) and a dict whose
    ["type"] is not ["submit_tool_outputs"] get no output and leave the
    world alone.  An action that asks for outputs and lists well-shaped
    calls (["submit_tool_outputs"] absent or a dict, its ["tool_calls"]
    falsy or a list, each call a dict whose ["function"] is a dict, absent
    or falsy) is answered whatever the calls ask for and whatever state
    the catalog is in: a failure inside a call (arguments that are no JSON
    or no object, a catalog that does not load) becomes the output text of
    that call; there is one output per call with a truthy id, in call
    order, each with a non-empty text.  On any other action the function
    raises an [AttributeError] or a [TypeError]: the lines that take the
    action and a call apart stand outside the [try]. *)
Theorem build_tool_outputs_returns (required_action : json) (w : world) :
  (asks_outputs required_action = false ->
   well_shaped required_action = true ->
   build_tool_outputs required_action w = (Ok [], w))
  /\ (forall calls,
        asks_outputs required_action = true ->
        listed_calls required_action = Some calls ->
        forallb call_well_shaped calls = true ->
        exists outputs w',
          build_tool_outputs required_action w = (Ok outputs, w')
          /\ map tool_call_id outputs = answered_ids calls
          /\ Forall (fun o => truthy (output o) = true) outputs)
  /\ (well_shaped required_action = false ->
      exists e w',
        build_tool_outputs required_action w = (Raise e, w')
        /\ exists message,
             e = AttributeError message \/ e = TypeError message).
Proof.
  split; [|split].
  - unfold well_shaped, asks_outputs, build_tool_outputs.
    destruct required_action as [|b|literal|text|items|fields];
      cbn [json_truthy negb orb py_get].
    + reflexivity.
    + intros _ Hb. rewrite orb_false_r in Hb. now rewrite Hb.
    + intros _ Hb. rewrite orb_false_r in Hb. now rewrite Hb.
    + intros _ Hb. rewrite orb_false_r in Hb. now rewrite Hb.
    + intros _ Hb. rewrite orb_false_r in Hb. now rewrite Hb.
    + destruct fields as [|field fields]; [reflexivity|].
      intros Hkind _. cbv beta iota in Hkind. cbn [negb]. run.
      now rewrite Hkind.
  - intros calls. unfold asks_outputs, listed_calls, build_tool_outputs.
    destruct required_action as [|b|literal|text|items|fields];
      try discriminate.
    destruct fields as [|field fields]; [discriminate|].
    intros Hkind Hcalls Hshape. cbv beta iota in Hkind.
    cbn [json_truthy negb py_get]. run.
    rewrite Hkind. cbn [negb].
    assert (Hempty : exists outputs w',
               tool_outputs_loop [] w = (Ok outputs, w')
               /\ map tool_call_id outputs = answered_ids []
               /\ Forall (fun o => truthy (output o) = true) outputs).
    { exists [], w. repeat split. constructor. }
    destruct (obj_get (lit "submit_tool_outputs") (field :: fields))
      as [submit|].
    + destruct submit as [| | | | |sub]; try discriminate.
      cbn [py_get]. run.
      destruct (obj_get (lit "tool_calls") sub) as [found|].
      * cbn [found_or_none]. unfold or_json.
        destruct found as [|b|literal|text|items|ff]; cbn [json_truthy] in *.
        -- injection Hcalls as <-. cbn [py_iter]. run. exact Hempty.
        -- destruct b; [discriminate|]. injection Hcalls as <-.
           cbn [py_iter]. run. exact Hempty.
        -- destruct (num_truthy literal); [discriminate|].
           injection Hcalls as <-. cbn [py_iter]. run. exact Hempty.
        -- destruct text; [|discriminate]. injection Hcalls as <-.
           cbn [truthy py_iter]. run. exact Hempty.
        -- injection Hcalls as <-.
           destruct items as [|item items]; cbn [py_iter]; run;
             now apply tool_outputs_loop_returns.
        -- destruct ff; [|discriminate]. injection Hcalls as <-.
           cbn [py_iter]. run. exact Hempty.
      * injection Hcalls as <-. cbn [found_or_none]. unfold or_json.
        cbn [json_truthy py_iter]. run. exact Hempty.
    + injection Hcalls as <-. cbn [py_get obj_get found_or_none]. unfold or_json.
      cbn [json_truthy py_iter]. run. exact Hempty.
  - unfold well_shaped, build_tool_outputs.
    destruct required_action as [|b|literal|text|items|fields];
      cbn [json_truthy negb orb py_get]; try discriminate.
    + rewrite orb_false_r. intros Hb. apply negb_false_iff in Hb.
      rewrite Hb. cbn [negb]. run. eauto 6.
    + rewrite orb_false_r. intros Hb. apply negb_false_iff in Hb.
      rewrite Hb. cbn [negb]. run. eauto 6.
    + rewrite orb_false_r. intros Hb. apply negb_false_iff in Hb.
      rewrite Hb. cbn [negb]. run. eauto 6.
    + rewrite orb_false_r. intros Hb. apply negb_false_iff in Hb.
      rewrite Hb. cbn [negb]. run. eauto 6.
    + destruct fields as [|field fields]; [discriminate|].
      cbn [negb orb]. unfold asks_outputs, listed_calls. run.
      destruct (is_submit (found_or_none (obj_get (lit "type") (field :: fields))));
        [|discriminate].
      cbn [negb orb].
      destruct (obj_get (lit "submit_tool_outputs") (field :: fields))
        as [submit|]; [|discriminate].
      destruct submit as [|b|literal|text|items|sub];
        try (intros _; cbn [py_get]; run; solve [eauto 6]).
      cbn [py_get]. run.
      destruct (obj_get (lit "tool_calls") sub) as [found|]; [|discriminate].
      cbn [found_or_none]. unfold or_json.
      destruct found as [|b|literal|text|items|ff]; cbn [json_truthy].
      * discriminate.
      * destruct b; [|discriminate]. intros _. cbn [py_iter]. run. eauto 6.
      * destruct (num_truthy literal); [|discriminate]. intros _.
        cbn [py_iter]. run. eauto 6.
      * destruct text as [|c text]; [discriminate|]. intros _.
        cbn [truthy py_iter map]. run.
        destruct (tool_outputs_loop_raises
                    (JStr [c] :: map (fun c => JStr [c]) text) eq_refl w)
          as (message & w' & ->). eauto 6.
      * intros Hshape. destruct items as [|item items]; [discriminate|].
        cbn [py_iter]. run.
        destruct (tool_outputs_loop_raises (item :: items) Hshape w)
          as (message & w' & ->). eauto 6.
      * destruct ff as [|[k v] ff]; [discriminate|]. intros _.
        cbn [py_iter map fst]. run. rewrite first_seen_head. cbn [map].
        destruct (tool_outputs_loop_raises
                    (JStr k :: map JStr (first_seen [k] (map fst ff)))
                    eq_refl w)
          as (message & w' & ->). eauto 6.
Qed.

End ConfigFacts.

Lemma parse_cors_origins_witness :
  @_parse_cors LatinRuntime (lit " http://a.ro , ,http://b.ro,")
  = [lit "http://a.ro"; lit "http://b.ro"]
  /\ @_parse_cors LatinRuntime (lit " , ,") = [].
Proof.
  split; [vm_compute; reflexivity|].
  apply (proj2 (proj2 (@parse_cors_origins LatinRuntime (lit " , ,")) eq_refl)).
  repeat (apply Forall_cons;
          [first [left; reflexivity | right; reflexivity]|]).
  apply Forall_nil.
Defined.

Lemma startup_report_witness :
  @_on_startup LatinRuntime Scripted.embedding_down
    {| w_books := Books [Sample.hobbit];
       w_collection := [Sample.hobbit_doc];
       w_cache := None; w_log := [] |}
  = (lit "[startup] Chroma ready. added=0, skipped=1",
     {| w_books := Books [Sample.hobbit];
        w_collection := [Sample.hobbit_doc];
        w_cache := None; w_log := [] |})
  /\ snd (@_on_startup LatinRuntime Scripted.embedding_down
            Sample.no_catalog) = Sample.no_catalog.
Proof.
  split.
  - refine (proj1 (@startup_report LatinRuntime Scripted.embedding_down
                     {| w_books := Books [Sample.hobbit];
                        w_collection := [Sample.hobbit_doc];
                        w_cache := None; w_log := [] |})
              [Sample.hobbit] eq_refl _).
    discriminate.
  - rewrite (proj2 (@startup_report LatinRuntime Scripted.embedding_down
                      Sample.no_catalog) eq_refl).
    reflexivity.
Defined.

Lemma build_tool_outputs_returns_witness :
  let call (id : json) (name raw : str) :=
    JObj [(lit "id", id);
          (lit "function",
           JObj [(lit "name", JStr name); (lit "arguments", JStr raw)])] in
  let calls :=
    [ call (JStr (lit "c1")) (lit "get_summary_by_title") (lit "nope");
      call JNull (lit "get_summary_by_title") (lit "{}");
      call (JStr (lit "c3")) (lit "get_weather") (lit "{}") ] in
  let action :=
    JObj [(lit "type", JStr (lit "submit_tool_outputs"));
          (lit "submit_tool_outputs", JObj [(lit "tool_calls", JArr calls)])] in
  let broken :=
    JObj [(lit "type", JStr (lit "submit_tool_outputs"));
          (lit "submit_tool_outputs", JNull)] in
  (exists outputs w',
      @build_tool_outputs LatinRuntime LatinValues action Sample.no_catalog
      = (Ok outputs, w')
      /\ map tool_call_id outputs = [JStr (lit "c1"); JStr (lit "c3")])
  /\ @build_tool_outputs LatinRuntime LatinValues
       (JObj [(lit "type", JStr (lit "message"))]) Sample.no_catalog
     = (Ok [], Sample.no_catalog)
  /\ exists e w',
      @build_tool_outputs LatinRuntime LatinValues broken Sample.no_catalog
      = (Raise e, w').
Proof.
  intros call calls action broken. split; [|split].
  - destruct (proj1 (proj2 (@build_tool_outputs_returns LatinRuntime
                              LatinValues action Sample.no_catalog))
                calls eq_refl eq_refl eq_refl)
      as (outputs & w' & Hrun & Hids & _).
    exists outputs, w'. split; [exact Hrun | exact Hids].
  - exact (proj1 (@build_tool_outputs_returns LatinRuntime LatinValues
                    (JObj [(lit "type", JStr (lit "message"))])
                    Sample.no_catalog) eq_refl eq_refl).
  - destruct (proj2 (proj2 (@build_tool_outputs_returns LatinRuntime
                              LatinValues broken Sample.no_catalog))
                eq_refl)
      as (e & w' & Hrun & _).
    exists e, w'. exact Hrun.
Defined.

Section LookupKey.
Context {rt : PyRuntime}.

(** X22.  Up to the fuzzy stage the lookup sees a title only through its
    normalized form: two titles that are not blank and normalize alike
    (they differ in case or in surrounding whitespace) get the same answer
    whenever the exact or the substring stage finds something.  (The fuzzy
    stage compares the title as given.) *)
Theorem lookup_by_normalized_title (title1 title2 : str) (w : world)
  (books : list book) (index : list (str * book)) :
  catalog_view w = Some (books, index) ->
  truthy (strip title1) = true ->
  truthy (strip title2) = true ->
  _norm title1 = _norm title2 ->
  dict_get (_norm title1) index <> None
  \/ candidates_of (_norm title1) index <> [] ->
  fst (get_summary_by_title title1 w) = fst (get_summary_by_title title2 w).
Proof.
  intros Hview H1 H2 Hnorm Hfound.
  assert (Hraw : forall t, truthy (strip t) = true -> truthy t = true).
  { intros t Ht. destruct t; [discriminate Ht | reflexivity]. }
  destruct (ensure_cache_view (noting (CallSummary title1) w) Hview)
    as (wa & Ha & _).
  destruct (ensure_cache_view (noting (CallSummary title2) w) Hview)
    as (wb & Hb & _).
  rewrite !get_summary_run, Ha, Hb. cbn [fst].
  rewrite (Hraw _ H1), (Hraw _ H2), H1, H2. cbn [negb orb].
  rewrite <- Hnorm.
  destruct (dict_get (_norm title1) index); [reflexivity|].
  destruct (candidates_of (_norm title1) index); [|reflexivity].
  destruct Hfound as [Hf | Hf]; congruence.
Qed.

Lemma join_chars_length (a : str) :
  length (join (lit ", ") (chars_of a)) = (3 * length a - 2)%nat.
Proof.
  induction a as [|c a IH]; [reflexivity|].
  cbn [chars_of map join]. fold (chars_of a).
  destruct a as [|d a']; [reflexivity|].
  cbn [chars_of map] in *. rewrite !length_app, IH.
  replace (length (lit ", ")) with 2%nat by reflexivity.
  cbn [length]. lia.
Qed.

(** X23.  [index_books] stores the authors of an entry as one string, the
    names joined by [", "], and [_fmt] joins what it gets once more: for an
    item that carries such a string, the [Autori:] line of the prompt
    lists it one character at a time, [", "] between every two characters
    of the stored string, three times the length less two in all. *)
Theorem fmt_authors_by_character (books : list book)
  (row : str * str * meta) (item : match_item) (a : str) :
  (In row (prepare books) ->
   exists b, In b books
             /\ m_authors (snd row) = Some (join (lit ", ") (b_authors b)))
  /\ (i_authors item = Stored a ->
      _fmt item
      = lit "Titlu: " ++ or_empty (i_title item) ++ [NL]
        ++ lit "Autori: " ++ join (lit ", ") (chars_of a) ++ [NL]
        ++ lit "Rezumat scurt: " ++ firstn 350 (or_empty (i_summary item))
        ++ lit "..."
      /\ length (join (lit ", ") (chars_of a))
         = (3 * length a - 2)%nat).
Proof.
  split.
  - induction books as [|b books IH]; cbn [prepare]; [intros []|].
    destruct (truthy (strip (b_title b))); cbn [negb].
    + intros [<- | Hin].
      * exists b. split; [now left | reflexivity].
      * destruct (IH Hin) as (b' & Hb' & Hm). exists b'. split; [now right|auto].
    + intros Hin. destruct (IH Hin) as (b' & Hb' & Hm).
      exists b'. split; [now right|auto].
  - intros Ha. split.
    + unfold _fmt. rewrite Ha. reflexivity.
    + apply join_chars_length.
Qed.

End LookupKey.

Lemma lookup_by_normalized_title_witness :
  fst (@get_summary_by_title LatinRuntime (lit "  DUNE ")
         (Sample.fresh [Sample.dune_messiah; Sample.dune]))
  = fst (@get_summary_by_title LatinRuntime (lit "dune")
           (Sample.fresh [Sample.dune_messiah; Sample.dune])).
Proof.
  apply (@lookup_by_normalized_title LatinRuntime (lit "  DUNE ")
           (lit "dune") (Sample.fresh [Sample.dune_messiah; Sample.dune])
           [Sample.dune_messiah; Sample.dune]
           (@build_index LatinRuntime [Sample.dune_messiah; Sample.dune] [])).
  - reflexivity.
  - vm_compute. reflexivity.
  - vm_compute. reflexivity.
  - vm_compute. reflexivity.
  - left. vm_compute. discriminate.
Defined.

Lemma fmt_authors_by_character_witness :
  _fmt
    {| i_title := Some (lit "Dune"); i_summary := Some (lit "Arrakis.");
       i_authors := Stored (lit "Herbert"); i_tags := EmptyList;
       i_distance := None; i_document := None; i_id := lit "dune" |}
  = lit "Titlu: Dune" ++ [NL] ++ lit "Autori: H, e, r, b, e, r, t" ++ [NL]
    ++ lit "Rezumat scurt: Arrakis....".
Proof.
  refine (proj1 (proj2 (@fmt_authors_by_character LatinRuntime [] (lit "", lit "", empty_meta)
            {| i_title := Some (lit "Dune"); i_summary := Some (lit "Arrakis.");
               i_authors := Stored (lit "Herbert"); i_tags := EmptyList;
               i_distance := None; i_document := None; i_id := lit "dune" |}
            (lit "Herbert")) eq_refl)).
Defined.
